(** * formdata-parser: a shallow embedding of [src/index.ts]

    The development follows the source file top to bottom: the JavaScript
    built-ins the parser calls on strings and numbers, the value tree it
    builds, then [parseFieldName], [splitArrayValue], [parseBoolean],
    [parseListEntry], [applyListEntries], [setDeep], [getDeep], [castValue]
    and [parseTypedFormData], then the properties of the specification,
    and finally further properties of the same functions.

    Modelling choices.
    - A JavaScript string is a [string]; each character is one code unit
      below 256, so the white space of [trim] and the case mapping of
      [toLowerCase] are those of that range.
    - A JavaScript number is an IEEE 754 binary64 value ([spec_float]).
    - An object carries its own data properties in a [gmap]; an array
      carries its elements besides, and its [length] is their number.  A
      hole of an array is represented by [undefined]: the parser reads
      holes only through indexing, spreading and [filter], which do not
      tell them apart from it.
    - The source is module code, hence strict-mode code.  A property write
      can raise: a TypeError on a primitive, a RangeError on the [length]
      of an array when the value written is no valid length.
    - Property access is modelled on own properties: a read finds an own
      property or nothing, a write sets an own property.  The model follows
      the program where every access is plain ([plain_for]): made on a
      mapping with a name that is no member of [Object.prototype], or on an
      array with an array index.  Elsewhere the program meets what the
      prototype chain holds (the function [constructor], the accessor
      [__proto__], the read-only members of an attachment, a built-in
      method shadowed by an own property) and reads an inherited member,
      changes a prototype or raises a TypeError, none of which the model
      shows.  The statements that depend on property access are made for
      plain accesses.
    - The tree is a value: an attachment submitted under two names is
      modelled as two attachments.  The two agree as long as no write
      goes into an attachment, and a plain access never does.
    - [Date] parsing and [JSON.parse] are parameters of the development;
      [Number] applied to a string is modelled after ECMAScript's
      StringToNumber.
    - The adapters that read the entries out of a [FormData], a
      [URLSearchParams] or a plain object are not modelled: the parser
      starts from the list of entries. *)

From Stdlib Require Import ZArith NArith List Ascii String Bool Lia.
From Stdlib Require Import Floats.SpecFloat.
From stdpp Require Import base option list gmap strings fin_maps.

(** * JavaScript strings *)

Module JsString.

Definition is_empty (s : string) : bool :=
  match s with EmptyString => true | String _ _ => false end.

(** White space and line terminators below code unit 256:
    TAB, LF, VT, FF, CR, SP and NBSP. *)
Definition is_white_space (c : ascii) : bool :=
  let n := N_of_ascii c in
  (N.leb 9 n && N.leb n 13) || N.eqb n 32 || N.eqb n 160.

Fixpoint trimStart (s : string) : string :=
  match s with
  | EmptyString => EmptyString
  | String c s' => if is_white_space c then trimStart s' else s
  end.

Fixpoint trimEnd (s : string) : string :=
  match s with
  | EmptyString => EmptyString
  | String c s' =>
      let t := trimEnd s' in
      if is_white_space c && is_empty t then EmptyString else String c t
  end.

(** [String.prototype.trim] *)
Definition trim (s : string) : string := trimEnd (trimStart s).

Definition lower_char (c : ascii) : ascii :=
  let n := N_of_ascii c in
  if (N.leb 65 n && N.leb n 90)
     || (N.leb 192 n && N.leb n 222 && negb (N.eqb n 215))
  then ascii_of_N (n + 32) else c.

(** [String.prototype.toLowerCase] *)
Fixpoint toLowerCase (s : string) : string :=
  match s with
  | EmptyString => EmptyString
  | String c s' => String (lower_char c) (toLowerCase s')
  end.

(** What follows [pre] in [s], when [s] starts with [pre]. *)
Fixpoint strip_prefix (pre s : string) : option string :=
  match pre, s with
  | EmptyString, _ => Some s
  | String a pre', String b s' =>
      if Ascii.eqb a b then strip_prefix pre' s' else None
  | String _ _, EmptyString => None
  end.

(** The first occurrence of a non-empty separator: the text before it and
    the text after it. *)
Fixpoint break_on (sep s : string) : option (string * string) :=
  match s with
  | EmptyString => None
  | String c s' =>
      match strip_prefix sep s with
      | Some rest => Some (EmptyString, rest)
      | None =>
          match break_on sep s' with
          | Some (a, b) => Some (String c a, b)
          | None => None
          end
      end
  end.

Fixpoint split_from (fuel : nat) (sep s : string) : list string :=
  match fuel with
  | O => [s]
  | S n =>
      match break_on sep s with
      | None => [s]
      | Some (a, b) => a :: split_from n sep b
      end
  end.

Fixpoint code_units (s : string) : list string :=
  match s with
  | EmptyString => []
  | String c s' => String c EmptyString :: code_units s'
  end.

(** [String.prototype.split] with a string separator and no limit.  Every
    cut removes at least one code unit, so the length of [s] is enough
    fuel (lemma [split_unfold]). *)
Definition split (sep s : string) : list string :=
  if is_empty sep then code_units s
  else split_from (String.length s) sep s.

(** [Array.prototype.join] on an array of strings. *)
Fixpoint join (sep : string) (l : list string) : string :=
  match l with
  | [] => EmptyString
  | [a] => a
  | a :: rest => a +:+ sep +:+ join sep rest
  end.

Definition eqb (a b : string) : bool := String.eqb a b.

End JsString.

Import JsString.

(** * JavaScript numbers *)

Module JsNumber.

(** A Number value: an IEEE 754 binary64 float. *)
Definition number : Type := spec_float.

Definition NaN : number := S754_nan.
Definition zero : number := S754_zero false.

Definition of_Z (z : Z) : number := binary_normalize 53 1024 z 0 false.

(** The binary64 value nearest to [(-1)^neg * m * 10^e10], ties to even. *)
Definition of_decimal (neg : bool) (m : N) (e10 : Z) : number :=
  match m with
  | N0 => S754_zero neg
  | Npos p =>
      if (0 <=? e10)%Z then binary_round 53 1024 neg (p * Z.to_pos (10 ^ e10)) 0
      else
        let '(q, e, l) :=
          SFdiv_core_binary 53 1024 (Zpos p) 0 (10 ^ (- e10))%Z 0 in
        binary_round_aux 53 1024 neg q e l
  end.

(** [Number.isFinite] *)
Definition isFinite (n : number) : bool :=
  match n with
  | S754_zero _ | S754_finite _ _ _ => true
  | S754_infinity _ | S754_nan => false
  end.

(** The integer a number denotes, when it denotes a non-negative one. *)
Definition to_N (n : number) : option N :=
  match n with
  | S754_zero _ => Some 0%N
  | S754_finite false m (Zpos e) => Some (N.shiftl (Npos m) (Npos e))
  | S754_finite false m Z0 => Some (Npos m)
  | S754_finite false m (Zneg e) =>
      if N.eqb (N.land (Npos m) (N.ones (Npos e))) 0
      then Some (N.shiftr (Npos m) (Npos e)) else None
  | _ => None
  end.

Definition digit_of (base : N) (c : ascii) : option N :=
  let n := N_of_ascii c in
  let v :=
    if (N.leb 48 n && N.leb n 57) then Some (n - 48)%N
    else if (N.leb 97 n && N.leb n 102) then Some (n - 87)%N
    else if (N.leb 65 n && N.leb n 70) then Some (n - 55)%N
    else None in
  match v with
  | Some d => if N.ltb d base then Some d else None
  | None => None
  end.

(** The longest prefix of digits in [base], read most significant first
    on top of [acc]: its value, how many digits it has, and what follows. *)
Fixpoint read_digits (base : N) (s : string) (acc : N) (count : nat)
  : N * nat * string :=
  match s with
  | EmptyString => (acc, count, s)
  | String c s' =>
      match digit_of base c with
      | Some d => read_digits base s' (acc * base + d)%N (S count)
      | None => (acc, count, s)
      end
  end.

Definition char_is (c : ascii) (a b : string) : bool :=
  JsString.eqb (String c "") a || JsString.eqb (String c "") b.

(** NonDecimalIntegerLiteral: [0x], [0o] or [0b] and at least one digit. *)
Definition parse_non_decimal (s : string) : option N :=
  match s with
  | String z (String k r) =>
      if JsString.eqb (String z "") "0" then
        let base :=
          if char_is k "x" "X" then Some 16%N
          else if char_is k "o" "O" then Some 8%N
          else if char_is k "b" "B" then Some 2%N
          else None in
        match base with
        | Some b =>
            match read_digits b r 0 0 with
            | (v, S _, EmptyString) => Some v
            | _ => None
            end
        | None => None
        end
      else None
  | _ => None
  end.

(** ExponentPart, optional, up to the end of the literal. *)
Definition parse_exponent (s : string) : option Z :=
  match s with
  | EmptyString => Some 0%Z
  | String c r =>
      if char_is c "e" "E" then
        let '(neg, r') :=
          match r with
          | String sg r1 =>
              if JsString.eqb (String sg "") "+" then (false, r1)
              else if JsString.eqb (String sg "") "-" then (true, r1)
              else (false, r)
          | EmptyString => (false, r)
          end in
        match read_digits 10 r' 0 0 with
        | (v, S _, EmptyString) =>
            Some (if neg then (- Z.of_N v)%Z else Z.of_N v)
        | _ => None
        end
      else None
  end.

(** StrUnsignedDecimalLiteral other than [Infinity]: the digits as an
    integer and the power of ten that scales it. *)
Definition parse_unsigned_decimal (s : string) : option (N * Z) :=
  match read_digits 10 s 0 0 with
  | (vi, ni, String dot r2) =>
      if JsString.eqb (String dot "") "." then
        match read_digits 10 r2 vi 0 with
        | (v, nf, r3) =>
            match ni, nf with
            | O, O => None
            | _, _ =>
                match parse_exponent r3 with
                | Some e => Some (v, (e - Z.of_nat nf)%Z)
                | None => None
                end
            end
        end
      else
        match ni with
        | O => None
        | S _ =>
            match parse_exponent (String dot r2) with
            | Some e => Some (vi, e)
            | None => None
            end
        end
  | (vi, S _, EmptyString) => Some (vi, 0%Z)
  | (_, O, EmptyString) => None
  end.

(** ECMAScript's StringToNumber: what [Number] returns for a string. *)
Definition StringToNumber (s : string) : number :=
  let t := trim s in
  if is_empty t then zero
  else
    match parse_non_decimal t with
    | Some n => of_Z (Z.of_N n)
    | None =>
        let '(neg, u) :=
          match t with
          | String sg r =>
              if JsString.eqb (String sg "") "+" then (false, r)
              else if JsString.eqb (String sg "") "-" then (true, r)
              else (false, t)
          | EmptyString => (false, t)
          end in
        if JsString.eqb u "Infinity" then S754_infinity neg
        else
          match parse_unsigned_decimal u with
          | Some (m, e) => of_decimal neg m e
          | None => NaN
          end
    end.

End JsNumber.

Import JsNumber.

(** * Values and property access *)

(** An attachment ([File]) is opaque to the parser: only its identity
    matters. *)
Definition File : Type := N.

(** The values the parser reads, builds and returns.  Every object kind
    has a table of own properties; arrays have their elements besides. *)
#[warnings="-register-all"]
Inductive value : Type :=
| VUndef
| VNull
| VBool (b : bool)
| VNum (n : number)
| VStr (s : string)
| VObj (props : gmap string value)
| VArr (elems : list value) (props : gmap string value)
| VDate (time : Z) (props : gmap string value)
| VFile (file : File) (props : gmap string value).

Arguments VFile file%_N props.

(** What the code throws: its own [new Error(message)], and the two
    errors the platform raises on a property write. *)
Inductive error : Type :=
| Error (message : string)
| RangeError
| TypeError.

Inductive result (A : Type) : Type :=
| Ok (a : A)
| Throw (e : error).
Arguments Ok {A} a.
Arguments Throw {A} e.

(** Sequencing stops at the first error thrown; [x ← r; k] is stdpp's
    notation for it. *)
#[global] Instance result_bind : MBind result := λ A B k r,
  match r with
  | Ok a => k a
  | Throw e => Throw e
  end.

(** Truthiness, as [!v] and [v && ...] test it. *)
Definition truthy (v : value) : bool :=
  match v with
  | VUndef | VNull => false
  | VBool b => b
  | VNum n => match n with S754_zero _ | S754_nan => false | _ => true end
  | VStr s => negb (is_empty s)
  | _ => true
  end.

(** [typeof v === "object"] *)
Definition typeof_object (v : value) : bool :=
  match v with
  | VNull | VObj _ | VArr _ _ | VDate _ _ | VFile _ _ => true
  | _ => false
  end.

(** [Array.isArray] *)
Definition isArray (v : value) : bool :=
  match v with VArr _ _ => true | _ => false end.

Definition is_undefined (v : value) : bool :=
  match v with VUndef => true | _ => false end.

Module Property.

(** A canonical array index: the decimal numeral, without leading zeros,
    of an integer below 2^32 - 1. *)
Definition array_index (p : string) : option nat :=
  match p with
  | EmptyString => None
  | String c r =>
      if JsString.eqb (String c "") "0" && negb (is_empty r) then None
      else
        match read_digits 10 p 0 0 with
        | (v, _, EmptyString) =>
            if N.ltb v 4294967295 then Some (N.to_nat v) else None
        | _ => None
        end
  end.

(** ToNumber.  An object converts through the primitive value its
    built-in methods give: a date through its time value, an array
    through the text [join] makes of it (the empty array reads as 0, a
    singleton as its element does, and two elements or more give a text
    with a comma, which is no numeral), any other object through a text in
    square brackets, which is no numeral either.  Own properties that
    shadow the built-in conversion methods are not consulted. *)
Fixpoint to_number (v : value) : number :=
  match v with
  | VUndef => NaN
  | VNull => zero
  | VBool b => if b then of_Z 1 else zero
  | VNum n => n
  | VStr s => StringToNumber s
  | VObj _ | VFile _ _ => NaN
  | VDate t _ => of_Z t
  | VArr elems _ =>
      match elems with
      | [] => zero
      | [x] =>
          match x with
          | VUndef | VNull => zero
          | VNum (S754_zero _) => zero
          | VNum n => n
          | VStr s => StringToNumber s
          | VArr _ _ => to_number x
          | _ => NaN
          end
      | _ => NaN
      end
  end.

(** An array of [n] elements made from [elems]: cut, or filled up. *)
Definition resize (elems : list value) (n : nat) : list value :=
  firstn n elems ++ repeat VUndef (n - List.length elems).

(** [elems[i] = v], growing the array when [i] is past its end. *)
Definition set_elem (elems : list value) (i : nat) (v : value) : list value :=
  firstn i (resize elems i) ++ v :: skipn (S i) elems.

(** A write to the [length] of an array (ArraySetLength). *)
Definition set_length (elems : list value) (v : value) : result (list value) :=
  match to_N (to_number v) with
  | Some n => if N.ltb n 4294967296 then Ok (resize elems (N.to_nat n))
              else Throw RangeError
  | None => Throw RangeError
  end.

Definition lookup_own (props : gmap string value) (p : string) : value :=
  match props !! p with
  | Some v => v
  | None => VUndef
  end.

(** [cur[p]] on an object: its own property.  What the object inherits
    is not looked up; the read is that of the program where it is plain
    ([plain_for]). *)
Definition get (cur : value) (p : string) : value :=
  match cur with
  | VObj props | VDate _ props | VFile _ props => lookup_own props p
  | VArr elems props =>
      match array_index p with
      | Some i => nth i elems VUndef
      | None =>
          if JsString.eqb p "length" then VNum (of_Z (Z.of_nat (List.length elems)))
          else lookup_own props p
      end
  | _ => VUndef
  end.

(** [cur[p] = v].  The source is module code, hence strict: a write to a
    property of a primitive raises.  An object receives an own property:
    the accessors it inherits are not consulted, so the write is that of
    the program where it is plain ([plain_for]). *)
Definition put (cur : value) (p : string) (v : value) : result value :=
  match cur with
  | VObj props => Ok (VObj (<[p := v]> props))
  | VDate t props => Ok (VDate t (<[p := v]> props))
  | VFile f props => Ok (VFile f (<[p := v]> props))
  | VArr elems props =>
      match array_index p with
      | Some i => Ok (VArr (set_elem elems i v) props)
      | None =>
          if JsString.eqb p "length" then
            elems' ← set_length elems v; Ok (VArr elems' props)
          else Ok (VArr elems (<[p := v]> props))
      end
  | _ => Throw TypeError
  end.

(** The object [cur] after the object it holds at [p] was mutated into
    [child]: the slot keeps the same reference, no write happens.  An
    object held in two slots is two values here: the mutation shows in
    this slot only. *)
Definition with_child (cur : value) (p : string) (child : value) : value :=
  match cur with
  | VObj props => VObj (<[p := child]> props)
  | VDate t props => VDate t (<[p := child]> props)
  | VFile f props => VFile f (<[p := child]> props)
  | VArr elems props =>
      match array_index p with
      | Some i => VArr (<[i := child]> elems) props
      | None => VArr elems (<[p := child]> props)
      end
  | _ => cur
  end.

End Property.

Import Property.

(** * The parser *)

Record ParseOptions : Type := {
  ignoreEmpty : bool;
  strict : bool;
  defaultArraySeparator : string
}.

Definition DEFAULT_OPTIONS : ParseOptions :=
  {| ignoreEmpty := false; strict := false; defaultArraySeparator := "," |}.

(** The runtime value of a [FieldType] is the lower-cased type token, a
    string: the cast to the union type is unchecked. *)
Record ParsedFieldName : Type := {
  type : string;
  key : string;
  arraySeparator : option string
}.

Inductive Variant : Type := KeyVariant | ValueVariant.

(** [entry_value] is the field [value] of the source. *)
Record ListEntry : Type := {
  variant : Variant;
  name : string;
  index : string;
  entry_value : string
}.

(** The value of an input entry: a string, an attachment, or a nullish
    value of a plain-object input. *)
Inductive raw_value : Type :=
| RawString (s : string)
| RawFile (f : File)
| RawNullish.

Arguments RawFile f%_N.

Definition is_letter (c : ascii) : bool :=
  let n := N_of_ascii c in
  (N.leb 65 n && N.leb n 90) || (N.leb 97 n && N.leb n 122).

Definition is_line_terminator (c : ascii) : bool :=
  let n := N_of_ascii c in N.eqb n 10 || N.eqb n 13.

Fixpoint span_letters (s : string) : string * string :=
  match s with
  | EmptyString => (EmptyString, EmptyString)
  | String c s' =>
      if is_letter c then let '(a, b) := span_letters s' in (String c a, b)
      else (EmptyString, s)
  end.

(** What follows an opening parenthesis when the token ends with a closing
    one: the text between the two, provided it holds no line terminator
    (the dot of the pattern does not match one). *)
Fixpoint parenthesised_rest (s : string) : option string :=
  match s with
  | EmptyString => None
  | String c EmptyString =>
      if JsString.eqb (String c "") ")" then Some EmptyString else None
  | String c s' =>
      if is_line_terminator c then None
      else match parenthesised_rest s' with
           | Some t => Some (String c t)
           | None => None
           end
  end.

(** The pattern [left] is matched against: one or more letters of either
    case, then optionally a parenthesised payload, up to the end.  The
    result holds group 1 (the letters) and group 3 (the payload). *)
Definition match_type_token (left : string) : option (string * option string) :=
  match span_letters left with
  | (EmptyString, _) => None
  | (letters, EmptyString) => Some (letters, None)
  | (letters, String c rest) =>
      if JsString.eqb (String c "") "(" then
        match parenthesised_rest rest with
        | Some opt => Some (letters, Some opt)
        | None => None
        end
      else None
  end.

Definition parseFieldName (raw : string) : ParsedFieldName :=
  let typeSplit := split "::" raw in
  if Nat.eqb (List.length typeSplit) 1 then
    {| type := "string"; key := raw; arraySeparator := None |}
  else
    let left := nth 0 typeSplit "" in
    let key := join "::" (skipn 1 typeSplit) in
    match match_type_token left with
    | None => {| type := "string"; key := raw; arraySeparator := None |}
    | Some (m1, opt) =>
        let type := toLowerCase (if is_empty m1 then "string" else m1) in
        if JsString.eqb type "array" then
          {| type := type; key := key; arraySeparator := opt |}
        else {| type := type; key := key; arraySeparator := None |}
    end.

Definition isEmptyValue (v : value) : bool :=
  match v with
  | VStr s => is_empty s
  | VNull | VUndef => true
  | _ => false
  end.

Definition splitArrayValue (value sep : string) : list string :=
  if is_empty (trim value) then []
  else List.filter (λ x, Nat.ltb 0 (String.length x)) (map trim (split sep value)).

Definition includes (l : list string) (v : string) : bool :=
  existsb (JsString.eqb v) l.

Definition parseBoolean (value : string) : option bool :=
  let v := toLowerCase (trim value) in
  if includes ["true"; "1"; "yes"; "on"] v then Some true
  else if includes ["false"; "0"; "no"; "off"] v then Some false
  else None.

Definition isPlainObject (value : value) : bool :=
  match value with
  | VNull => false
  | _ => typeof_object value && negb (isArray value)
         && negb (match value with VDate _ _ => true | _ => false end)
  end.

(** [String(rawValue ?? "")] *)
Definition to_String (rawValue : raw_value) : string :=
  match rawValue with
  | RawString s => s
  | RawNullish => ""
  | RawFile _ => "[object File]"
  end.

(** The text of [raw] between double quotes, as the template literals of
    the error messages show it. *)
Definition quoted (raw : string) : string :=
  String (ascii_of_N 34) raw +:+ String (ascii_of_N 34) EmptyString.

Definition invalid_list_field (rawName : string) : error :=
  Error ("Invalid list field: " +:+ quoted rawName).

Definition parseListEntry (rawName : string) (rawValue : raw_value)
    (opts : ParseOptions) : result (option ListEntry) :=
  let parts := split "::" rawName in
  if Nat.ltb (List.length parts) 4 then
    if strict opts then Throw (invalid_list_field rawName) else Ok None
  else
    let variant := toLowerCase (nth 1 parts "") in
    if negb (JsString.eqb variant "key") && negb (JsString.eqb variant "value") then
      if strict opts then Throw (invalid_list_field rawName) else Ok None
    else
      let index := List.last parts "" in
      let name := join "::" (removelast (skipn 2 parts)) in
      if is_empty name || is_empty index then
        if strict opts then Throw (invalid_list_field rawName) else Ok None
      else
        Ok (Some {| variant := if JsString.eqb variant "key" then KeyVariant
                               else ValueVariant;
                    name := name;
                    index := index;
                    entry_value := to_String rawValue |}).

(** [path.split(".").filter(Boolean)] *)
Definition path_parts (path : string) : list string :=
  List.filter (λ p, negb (is_empty p)) (split "." path).

(** The loop of [setDeep] on the parts that are left, from the node
    [cur].  The node a step moves to is mutated in place by the steps
    after it; [with_child] puts the mutated node back in its slot. *)
Fixpoint set_path (cur : value) (parts : list string) (val : value)
  : result value :=
  match parts with
  | [] => Ok cur
  | p :: rest =>
      match rest with
      | [] => put cur p val
      | _ :: _ =>
          cur1 ← (if negb (truthy (get cur p)) || negb (typeof_object (get cur p))
                  then put cur p (VObj ∅) else Ok cur);
          child ← set_path (get cur1 p) rest val;
          Ok (with_child cur1 p child)
      end
  end.

Definition setDeep (obj : value) (path : string) (val : value)
  : result value :=
  let parts := path_parts path in
  if Nat.eqb (List.length parts) 0 then Ok obj
  else set_path obj parts val.

Fixpoint get_path (cur : value) (parts : list string) : value :=
  match parts with
  | [] => cur
  | p :: rest =>
      if negb (truthy cur) || negb (typeof_object cur) then VUndef
      else get_path (get cur p) rest
  end.

Definition getDeep (obj : value) (path : string) : value :=
  get_path obj (path_parts path).

(** The object reached by [getDeep] along [parts], replaced by [node]
    after it was mutated in place. *)
Fixpoint with_node (cur : value) (parts : list string) (node : value) : value :=
  match parts with
  | [] => node
  | p :: rest => with_child cur p (with_node (get cur p) rest node)
  end.

Definition composite (name index : string) : string :=
  name +:+ "::" +:+ index.

Definition is_key (entry : ListEntry) : bool :=
  match variant entry with KeyVariant => true | ValueVariant => false end.

Definition is_value (entry : ListEntry) : bool :=
  match variant entry with ValueVariant => true | KeyVariant => false end.

(** The [Map] filled by the first loop of [applyListEntries]. *)
Definition build_valueMap (values : list ListEntry) : gmap string string :=
  fold_left
    (λ valueMap valueEntry,
       <[composite (name valueEntry) (index valueEntry)
         := entry_value valueEntry]> valueMap)
    values ∅.

(** The body of the second loop of [applyListEntries]. *)
Definition apply_key (valueMap : gmap string string) (target : value)
    (keyEntry : ListEntry) : result value :=
  if is_empty (trim (entry_value keyEntry)) then Ok target
  else
    let matchedValue :=
      match valueMap !! composite (name keyEntry) (index keyEntry) with
      | Some v => v
      | None => ""
      end in
    let container := getDeep target (name keyEntry) in
    target1 ← (if negb (isPlainObject container)
               then setDeep target (name keyEntry) (VObj ∅) else Ok target);
    let container := getDeep target1 (name keyEntry) in
    if isPlainObject container then
      container' ← put container (entry_value keyEntry) (VStr matchedValue);
      Ok (with_node target1 (path_parts (name keyEntry)) container')
    else Ok target1.

Fixpoint for_each {A S : Type} (body : S → A → result S) (state : S)
    (l : list A) : result S :=
  match l with
  | [] => Ok state
  | x :: rest => state' ← body state x; for_each body state' rest
  end.

Definition applyListEntries (entries : list ListEntry) (target : value)
  : result value :=
  if Nat.eqb (List.length entries) 0 then Ok target
  else
    let keys := List.filter is_key entries in
    let values := List.filter is_value entries in
    let valueMap := build_valueMap values in
    for_each (apply_key valueMap) target keys.

Section Parser.

(** The platform's date parser, as [new Date(value).getTime()] shows it:
    the time value in milliseconds, or [None] for an invalid date. *)
Variable Date_parse : string → option Z.

(** [JSON.parse]: the value, or [None] when it throws a SyntaxError. *)
Variable JSON_parse : string → option value.

Definition string_array (l : list string) : value := VArr (map VStr l) ∅.

Definition castValue (type : string) (raw : string) (opts : ParseOptions)
    (arraySeparator : option string) : result value :=
  let value := raw in
  if JsString.eqb type "string" then Ok (VStr value)
  else if JsString.eqb type "number" then
    let n := StringToNumber value in
    if negb (isFinite n) then
      if strict opts then Throw (Error ("Invalid number: " +:+ quoted value))
      else Ok (VStr value)
    else Ok (VNum n)
  else if JsString.eqb type "boolean" then
    match parseBoolean value with
    | None =>
        if strict opts then Throw (Error ("Invalid boolean: " +:+ quoted value))
        else Ok (VStr value)
    | Some b => Ok (VBool b)
    end
  else if JsString.eqb type "date" then
    match Date_parse value with
    | None =>
        if strict opts then Throw (Error ("Invalid date: " +:+ quoted value))
        else Ok (VStr value)
    | Some d => Ok (VDate d ∅)
    end
  else if JsString.eqb type "json" then
    match JSON_parse value with
    | Some v => Ok v
    | None =>
        if strict opts then Throw (Error ("Invalid JSON: " +:+ quoted value))
        else Ok (VStr value)
    end
  else if JsString.eqb type "array" then
    let sep :=
      match arraySeparator with
      | Some s => s
      | None => defaultArraySeparator opts
      end in
    Ok (string_array (splitArrayValue value sep))
  else Ok (VStr value).

(** [...v] inside an array literal: the elements of an array, the code
    units of a string; nothing else the parser holds is iterable. *)
Definition spread (v : value) : result (list value) :=
  match v with
  | VArr elems _ => Ok elems
  | VStr s => Ok (map VStr (code_units s))
  | _ => Throw TypeError
  end.

Definition array_of (elems : list value) : value := VArr elems ∅.

(** The state of the main loop: [out] and [listEntries]. *)
Definition state : Type := value * list ListEntry.

(** The body of the main loop of [parseTypedFormData]. *)
Definition parse_entry (opts : ParseOptions) (st : state)
    (entry : string * raw_value) : result state :=
  let '(out, listEntries) := st in
  let '(rawName, rawVal) := entry in
  let field := parseFieldName rawName in
  if JsString.eqb (type field) "list" then
    parsed ← parseListEntry rawName rawVal opts;
    match parsed with
    | Some listEntry => Ok (out, listEntries ++ [listEntry])
    | None => Ok (out, listEntries)
    end
  else
    match rawVal with
    | RawFile f =>
        out' ← setDeep out (key field) (VFile f ∅);
        Ok (out', listEntries)
    | _ =>
        let rawString := to_String rawVal in
        if ignoreEmpty opts && is_empty (trim rawString) then Ok st
        else
          parsed ← castValue (type field) rawString opts (arraySeparator field);
          if JsString.eqb (type field) "array" then
            let existing := getDeep out (key field) in
            items ← spread parsed;
            out' ←
              (if isArray existing then
                 old ← spread existing;
                 setDeep out (key field) (array_of (old ++ items))
               else if negb (is_undefined existing) then
                 setDeep out (key field) (array_of (existing :: items))
               else setDeep out (key field) parsed);
            Ok (out', listEntries)
          else
            let existing := getDeep out (key field) in
            out' ←
              (if is_undefined existing then setDeep out (key field) parsed
               else if isArray existing then
                 old ← spread existing;
                 setDeep out (key field) (array_of (old ++ [parsed]))
               else setDeep out (key field) (array_of [existing; parsed]));
            Ok (out', listEntries)
    end.

(** The cleanup of the [ignoreEmpty] option.  An array is replaced by a
    new one, filtered by the built-in [filter] (an own property of that
    name, which would shadow it, is not consulted); any other object has
    each of its own properties reassigned to its cleaned value. *)
Fixpoint clean (obj : value) : value :=
  match obj with
  | VArr elems _ => array_of (List.filter (λ x, negb (isEmptyValue x)) elems)
  | VObj props => VObj (clean <$> props)
  | VDate t props => VDate t (clean <$> props)
  | VFile f props => VFile f (clean <$> props)
  | _ => obj
  end.

(** [parseTypedFormData] on the entries read from its input, in their
    order, with the options already merged over [DEFAULT_OPTIONS]. *)
Definition parseTypedFormData (entries : list (string * raw_value))
    (opts : ParseOptions) : result value :=
  st ← for_each (parse_entry opts) (VObj ∅, []) entries;
  let '(out, listEntries) := st in
  out ← applyListEntries listEntries out;
  if ignoreEmpty opts then Ok (clean out) else Ok out.

End Parser.

(** * The vocabulary of the statements *)

(** What an object is, whatever its properties hold. *)
Inductive kind : Type :=
| Primitive
| Mapping
| Array
| DateOf (time : Z)
| Attachment (file : File).

Definition kind_of (v : value) : kind :=
  match v with
  | VObj _ => Mapping
  | VArr _ _ => Array
  | VDate t _ => DateOf t
  | VFile f _ => Attachment f
  | _ => Primitive
  end.

(** The test both walks make before they step into a node:
    [cur && typeof cur === "object"]. *)
Definition is_container (v : value) : bool := truthy v && typeof_object v.

Definition is_mapping (v : value) : bool :=
  match v with VObj _ => true | _ => false end.

(** A value that is no valid array length. *)
Definition not_a_length (v : value) : Prop := to_N (to_number v) = None.

Fixpoint value_size (v : value) : nat :=
  match v with
  | VObj props | VDate _ props | VFile _ props =>
      S (map_fold (λ _ x n, value_size x + n) 0 props)
  | VArr elems props =>
      S (list_sum (map value_size elems)
         + map_fold (λ _ x n, value_size x + n) 0 props)
  | _ => 1
  end.

(** [rawVal instanceof File] *)
Definition is_attachment (rawVal : raw_value) : bool :=
  match rawVal with RawFile _ => true | _ => false end.

Definition elements (v : value) : list value :=
  match v with VArr elems _ => elems | _ => [] end.

(** The stored shape of a repeated field, in the words of the
    specification: nothing at the path, the cast value as it is; an array
    at the path, the new value (or the new elements of an array-typed
    field) after its elements; anything else at the path, an array that
    starts with it. *)
Definition merged_value (array_typed : bool) (existing parsed : value) : value :=
  let incoming := if array_typed then elements parsed else [parsed] in
  match existing with
  | VUndef => parsed
  | VArr elems _ => VArr (elems ++ incoming) ∅
  | _ => VArr (existing :: incoming) ∅
  end.

(** The pieces [parseListEntry] cuts a field name into. *)
Definition list_variant (rawName : string) : string :=
  toLowerCase (nth 1 (split "::" rawName) "").

Definition list_name (rawName : string) : string :=
  join "::" (removelast (skipn 2 (split "::" rawName))).

Definition list_index (rawName : string) : string :=
  List.last (split "::" rawName) "".

(** A list field the code rejects. *)
Definition rejected_list_field (rawName : string) : Prop :=
  List.length (split "::" rawName) < 4
  ∨ (list_variant rawName ≠ "key" ∧ list_variant rawName ≠ "value")
  ∨ list_name rawName = ""
  ∨ list_index rawName = "".

(** A list field the specification calls invalid: the group name and
    the index are trimmed before they are tested. *)
Definition rejected_as_specified (rawName : string) : Prop :=
  List.length (split "::" rawName) < 4
  ∨ (list_variant rawName ≠ "key" ∧ list_variant rawName ≠ "value")
  ∨ trim (list_name rawName) = ""
  ∨ trim (list_index rawName) = "".

Fixpoint only_dots (path : string) : bool :=
  match path with
  | EmptyString => true
  | String c rest => JsString.eqb (String c "") "." && only_dots rest
  end.

(** A list entry the main loop buffered: one [parseListEntry] returned. *)
Definition parsed_list_entry (entry : ListEntry) : Prop :=
  ∃ rawName rawVal opts, parseListEntry rawName rawVal opts = Ok (Some entry).


(** The key-entries that contribute: those whose raw text is not blank. *)
Definition contributes (entry : ListEntry) : bool :=
  is_key entry && negb (is_empty (trim (entry_value entry))).

(** A pair written under a group: the container at the path of the group,
    made an empty mapping first when [isPlainObject] rejects what the path
    holds, gains the property. *)
Definition set_pair (target : value) (group k v : string) : result value :=
  target1 ← (if isPlainObject (getDeep target group) then Ok target
             else setDeep target group (VObj ∅));
  let container := getDeep target1 group in
  if isPlainObject container then
    container' ← put container k (VStr v);
    Ok (with_node target1 (path_parts group) container')
  else Ok target1.

(** The path an entry writes to: the group name of a list field, the key
    of any other field. *)
Definition entry_path (rawName : string) : string :=
  let field := parseFieldName rawName in
  if JsString.eqb (type field) "list" then list_name rawName else key field.

(** A path with a segment named [length]. *)
Definition addresses_length (path : string) : Prop :=
  In "length" (path_parts path).

(** The outcomes of the lenient parser: a result, or the RangeError of an
    array length, which has a cause. *)
Definition returns_or_RangeError {A : Type} (cause : Prop) (P : A → Prop)
    (r : result A) : Prop :=
  (∃ a, r = Ok a ∧ P a) ∨ (r = Throw RangeError ∧ cause).

(** What the main loop keeps true of its state: the output is a mapping,
    and every buffered list entry has the group name of one of the
    field names in [names]. *)
Definition loop_invariant (names : list string) (st : state) : Prop :=
  kind_of st.1 = Mapping
  ∧ Forall (λ entry, ∃ rawName, In rawName names
                                ∧ name entry = entry_path rawName) st.2.

(** A cast that fails, for each declared type that can fail. *)
Definition cast_failure (Date_parse : string → option Z)
    (JSON_parse : string → option value) (type raw : string) : Prop :=
  (type = "number" ∧ isFinite (StringToNumber raw) = false)
  ∨ (type = "boolean" ∧ parseBoolean raw = None)
  ∨ (type = "date" ∧ Date_parse raw = None)
  ∨ (type = "json" ∧ JSON_parse raw = None).

(** The error a failed cast raises in strict mode: its message names the
    type and quotes the raw text. *)
Definition cast_error (type raw : string) : error :=
  Error ("Invalid "
         +:+ (if JsString.eqb type "json" then "JSON" else type)
         +:+ ": " +:+ quoted raw).

(** The vocabulary of the further properties: what a text is made of. *)
Definition has_char (c : ascii) (s : string) : bool :=
  existsb (Ascii.eqb c) (list_ascii_of_string s).

Definition all_letters (s : string) : bool :=
  forallb is_letter (list_ascii_of_string s).

Definition has_line_terminator (s : string) : bool :=
  existsb is_line_terminator (list_ascii_of_string s).

(** The separator occurs somewhere in the text. *)
Definition occurs_in (sep s : string) : Prop := ∃ a b, s = a +:+ sep +:+ b.

(** A text that does not start with white space. *)
Definition starts_clean (s : string) : bool :=
  match s with
  | EmptyString => true
  | String c _ => negb (is_white_space c)
  end.

(** The options with [strict] set. *)
Definition with_strict (b : bool) (opts : ParseOptions) : ParseOptions :=
  {| ignoreEmpty := ignoreEmpty opts; strict := b;
     defaultArraySeparator := defaultArraySeparator opts |}.

(** The entries of one field submitted once for each of the texts. *)
Definition submissions (rawName : string) (vals : list string)
  : list (string * raw_value) :=
  map (λ s, (rawName, RawString s)) vals.

(** The errors the parser throws itself, with the entry that causes them:
    the error of a rejected list field, and the error of a failed cast. *)
Definition own_error (Date_parse : string → option Z)
    (JSON_parse : string → option value) (opts : ParseOptions)
    (entry : string * raw_value) (e : error) : Prop :=
  let field := parseFieldName entry.1 in
  strict opts = true
  ∧ ((type field = "list" ∧ rejected_list_field entry.1
      ∧ e = invalid_list_field entry.1)
     ∨ (type field ≠ "list"
        ∧ cast_failure Date_parse JSON_parse (type field) (to_String entry.2)
        ∧ e = cast_error (type field) (to_String entry.2))).

(** The first segment of a path, when it has one. *)
Definition first_segment (path : string) : option string :=
  head (path_parts path).

(** A path that starts under a top-level name other than [a]. *)
Definition addresses_other (a : string) (path : string) : Prop :=
  ∃ b, first_segment path = Some b ∧ b ≠ a.

(** ** Plain property accesses

    The model of property access follows the program where the access is
    plain: made on a mapping with a name that is no member of
    [Object.prototype], or on an array with an array index.  There a read
    finds an own property or nothing, and a write sets an own property. *)

(** The names of the members of [Object.prototype], those of the
    standard and those engines have had besides. *)
Definition object_members : list string :=
  [ "constructor"; "hasOwnProperty"; "isPrototypeOf"; "propertyIsEnumerable";
    "toLocaleString"; "toString"; "valueOf"; "__proto__";
    "__defineGetter__"; "__defineSetter__"; "__lookupGetter__";
    "__lookupSetter__"; "toSource"; "watch"; "unwatch" ].

(** [cur[p]] is a plain access. *)
Definition plain_for (cur : value) (p : string) : bool :=
  match cur with
  | VObj _ => negb (includes object_members p)
  | VArr _ _ => match array_index p with Some _ => true | None => false end
  | _ => false
  end.

(** Every access of the walk of [setDeep] along [parts] from [cur] is
    plain.  The walk goes on in the object a segment holds, or in the
    empty mapping put in its place; the walk of [getDeep] visits the same
    nodes, as far as it goes. *)
Fixpoint plain_along (cur : value) (parts : list string) : bool :=
  match parts with
  | [] => true
  | p :: rest =>
      plain_for cur p
      && plain_along (if is_container (get cur p) then get cur p else VObj ∅)
           rest
  end.

(** Every access made to write the pair of a key-entry is plain: the walk
    along the path of the group, and the write of the key into the
    container. *)
Definition plain_pair (t : value) (group k : string) : bool :=
  plain_along t (path_parts group)
  && plain_for (if isPlainObject (getDeep t group) then getDeep t group
                else VObj ∅) k.

(** Every access of a turn of the main loop is plain: a list field makes
    none, any other field walks the path of its key. *)
Definition plain_turn (st : state) (entry : string * raw_value) : bool :=
  let field := parseFieldName entry.1 in
  JsString.eqb (type field) "list"
  || plain_along st.1 (path_parts (key field)).

(** Every access of a turn of the second loop of [applyListEntries] is
    plain: a key-entry with a blank text makes none. *)
Definition plain_key (target : value) (keyEntry : ListEntry) : bool :=
  is_empty (trim (entry_value keyEntry))
  || plain_pair target (name keyEntry) (entry_value keyEntry).

(** Every turn of a loop is plain, in the state the loop has reached. *)
Fixpoint plain_loop {A S : Type} (plain : S → A → bool)
    (body : S → A → result S) (st : S) (l : list A) : bool :=
  match l with
  | [] => true
  | x :: rest =>
      plain st x
      && match body st x with
         | Ok st' => plain_loop plain body st' rest
         | Throw _ => true
         end
  end.

(** Every property access of a run of the parser is plain: those of the
    main loop, then those of the list assembly. *)
Definition plain_run (Date_parse : string → option Z)
    (JSON_parse : string → option value) (opts : ParseOptions)
    (entries : list (string * raw_value)) : bool :=
  plain_loop plain_turn (parse_entry Date_parse JSON_parse opts)
    (VObj ∅, []) entries
  && match for_each (parse_entry Date_parse JSON_parse opts) (VObj ∅, [])
             entries with
     | Ok (out, listEntries) =>
         plain_loop plain_key
           (apply_key (build_valueMap (List.filter is_value listEntries)))
           out (List.filter is_key listEntries)
     | Throw _ => true
     end.

(** A platform for closed examples: one date, the three JSON literals. *)
Module Sample.

Definition Date_parse (s : string) : option Z :=
  if JsString.eqb s "1970-01-01" then Some 0%Z else None.

Definition JSON_parse (s : string) : option value :=
  if JsString.eqb s "null" then Some VNull
  else if JsString.eqb s "true" then Some (VBool true)
  else if JsString.eqb s "false" then Some (VBool false)
  else None.

Definition parse := parseTypedFormData Date_parse JSON_parse.

Definition strict_options : ParseOptions :=
  {| ignoreEmpty := false; strict := true; defaultArraySeparator := "," |}.

Definition ignoreEmpty_options : ParseOptions :=
  {| ignoreEmpty := true; strict := false; defaultArraySeparator := "," |}.

Definition array_at_a : value := VObj {[ "a" := VArr [VStr "u"] ∅ ]}.
Definition attachment_at_a : value := VObj {[ "a" := VFile 1 ∅ ]}.


End Sample.

(** * Facts about strings *)

Module JsStringFacts.

Lemma is_empty_true (s : string) : is_empty s = true ↔ s = EmptyString.
Proof. destruct s; simpl; split; congruence. Qed.

Lemma eqb_true (a b : string) : JsString.eqb a b = true ↔ a = b.
Proof. apply String.eqb_eq. Qed.

Lemma eqb_false (a b : string) : JsString.eqb a b = false ↔ a ≠ b.
Proof. apply String.eqb_neq. Qed.

Lemma eqb_refl (a : string) : JsString.eqb a a = true.
Proof. apply String.eqb_refl. Qed.

Lemma app_nil (b : string) : EmptyString +:+ b = b.
Proof. reflexivity. Qed.

Lemma app_cons (c : ascii) (a b : string) :
  String c a +:+ b = String c (a +:+ b).
Proof. reflexivity. Qed.

Lemma app_length (a b : string) :
  String.length (a +:+ b) = String.length a + String.length b.
Proof.
  induction a as [|c a IH]; [reflexivity |].
  rewrite app_cons. simpl. now rewrite IH.
Qed.

Lemma app_assoc (a b c : string) : (a +:+ b) +:+ c = a +:+ (b +:+ c).
Proof.
  induction a as [|x a IH]; [reflexivity |].
  rewrite !app_cons. now rewrite IH.
Qed.

Lemma strip_prefix_Some (pre s r : string) :
  strip_prefix pre s = Some r ↔ s = pre +:+ r.
Proof.
  revert s; induction pre as [|a pre IH]; intros s; simpl.
  - rewrite app_nil. split; congruence.
  - rewrite app_cons. destruct s as [|b s]; [split; discriminate |].
    destruct (Ascii.eqb_spec a b) as [->|Hne].
    + rewrite IH. split; congruence.
    + split; [discriminate | congruence].
Qed.

Lemma break_on_Some (sep s a b : string) :
  break_on sep s = Some (a, b) → s = a +:+ sep +:+ b.
Proof.
  revert a b; induction s as [|c s IH]; intros a b; simpl; [discriminate |].
  destruct (strip_prefix sep (String c s)) as [rest|] eqn:Hp.
  - intros [= <- <-]. now apply strip_prefix_Some in Hp.
  - destruct (break_on sep s) as [[a' b']|]; [| discriminate].
    intros [= <- <-]. rewrite app_cons. f_equal. now apply IH.
Qed.

Lemma break_on_shorter (sep s a b : string) :
  sep ≠ EmptyString → break_on sep s = Some (a, b) →
  String.length b < String.length s.
Proof.
  intros Hsep Hb. apply break_on_Some in Hb. subst s.
  rewrite !app_length. destruct sep; [congruence | simpl; lia].
Qed.

Lemma split_from_fuel (sep s : string) (n m : nat) :
  sep ≠ EmptyString → String.length s ≤ n → String.length s ≤ m →
  split_from n sep s = split_from m sep s.
Proof.
  intros Hsep. revert m s.
  induction n as [|n IH]; intros m s Hn Hm.
  - destruct s; [| simpl in Hn; lia]. destruct m; reflexivity.
  - destruct m as [|m].
    + destruct s; [reflexivity | simpl in Hm; lia].
    + simpl. destruct (break_on sep s) as [[a b]|] eqn:Hb; [| reflexivity].
      pose proof (break_on_shorter _ _ _ _ Hsep Hb).
      f_equal. apply IH; lia.
Qed.

(** The length of the text is enough fuel: [split] cuts at the first
    occurrence of the separator and goes on with what follows it. *)
Lemma split_unfold (sep s : string) :
  sep ≠ EmptyString →
  split sep s =
    match break_on sep s with
    | None => [s]
    | Some (a, b) => a :: split sep b
    end.
Proof.
  intros Hsep. unfold split.
  destruct sep as [|c sep]; [congruence |]. cbn [is_empty].
  destruct s as [|x s]; [reflexivity |].
  cbn [String.length split_from].
  destruct (break_on (String c sep) (String x s)) as [[a b]|] eqn:Hb;
    [| reflexivity].
  pose proof (break_on_shorter _ _ _ _ Hsep Hb) as Hlt.
  cbn [String.length] in Hlt.
  f_equal. apply split_from_fuel; [assumption | lia | lia].
Qed.

Lemma split_nonempty (sep s : string) :
  sep ≠ EmptyString → split sep s ≠ [].
Proof.
  intros Hsep. rewrite split_unfold by assumption.
  destruct (break_on sep s) as [[a b]|]; discriminate.
Qed.

Lemma join_cons (sep a : string) (l : list string) :
  l ≠ [] → join sep (a :: l) = a +:+ sep +:+ join sep l.
Proof. destruct l; [congruence | reflexivity]. Qed.

Lemma join_split (sep s : string) :
  sep ≠ EmptyString → join sep (split sep s) = s.
Proof.
  intros Hsep. remember (String.length s) as n eqn:Hn. revert s Hn.
  induction n as [n IH] using lt_wf_ind. intros s ->.
  rewrite split_unfold by assumption.
  destruct (break_on sep s) as [[a b]|] eqn:Hb; [| reflexivity].
  rewrite join_cons by now apply split_nonempty.
  rewrite (IH (String.length b)); [| eapply break_on_shorter; eauto | reflexivity].
  symmetry. now apply break_on_Some.
Qed.



End JsStringFacts.

(** * Induction on values *)

Lemma props_size (props : gmap string value) (p : string) (x : value) :
  props !! p = Some x →
  value_size x ≤ map_fold (λ _ x n, value_size x + n) 0 props.
Proof.
  intros Hp.
  rewrite (map_fold_delete_L _ _ p x props); [lia | | assumption].
  intros. lia.
Qed.

Lemma elems_size (elems : list value) (x : value) :
  x ∈ elems → value_size x ≤ list_sum (map value_size elems).
Proof.
  induction 1 as [x l | x y l _ IH]; simpl; lia.
Qed.

(** Induction on a value with the hypothesis for every element and every
    own property of an object. *)
Lemma value_nested_ind (P : value → Prop) :
  P VUndef → P VNull → (∀ b, P (VBool b)) → (∀ n, P (VNum n)) →
  (∀ s, P (VStr s)) →
  (∀ props, map_Forall (λ _, P) props → P (VObj props)) →
  (∀ elems props,
     Forall P elems → map_Forall (λ _, P) props → P (VArr elems props)) →
  (∀ t props, map_Forall (λ _, P) props → P (VDate t props)) →
  (∀ f props, map_Forall (λ _, P) props → P (VFile f props)) →
  ∀ v, P v.
Proof.
  intros Hu Hn Hb Hnum Hs Ho Ha Hd Hf v.
  remember (value_size v) as k eqn:Hk. revert v Hk.
  induction k as [k IH] using lt_wf_ind. intros v ->.
  assert (Hprops : ∀ props : gmap string value,
    map_fold (λ _ x n, value_size x + n) 0 props < value_size v →
    map_Forall (λ _, P) props).
  { intros props Hlt p x Hp. apply (IH (value_size x)); [| reflexivity].
    pose proof (props_size _ _ _ Hp). lia. }
  destruct v as [| | b | n | s | props | elems props | t props | f props];
    simpl in Hprops.
  - apply Hu.
  - apply Hn.
  - apply Hb.
  - apply Hnum.
  - apply Hs.
  - apply Ho, Hprops. lia.
  - apply Ha; [| apply Hprops; lia].
    apply Forall_forall. intros x Hx. apply (IH (value_size x)); [| reflexivity].
    pose proof (elems_size _ _ Hx). simpl. lia.
  - apply Hd, Hprops. lia.
  - apply Hf, Hprops. lia.
Qed.

(** * Facts about property access *)

Module PropertyFacts.

Lemma container_kind (v : value) :
  is_container v = true ↔ kind_of v ≠ Primitive.
Proof.
  unfold is_container.
  destruct v; simpl; rewrite ?andb_false_r; split; (done || congruence).
Qed.

Lemma mapping_container (v : value) : is_mapping v = true → is_container v = true.
Proof. by destruct v. Qed.

Lemma length_resize (elems : list value) (n : nat) :
  List.length (resize elems n) = n.
Proof.
  unfold resize. rewrite length_app, length_firstn, repeat_length. lia.
Qed.

Lemma nth_set_elem (elems : list value) (i : nat) (v : value) :
  nth i (set_elem elems i v) VUndef = v.
Proof.
  unfold set_elem.
  rewrite app_nth2; rewrite length_firstn, length_resize, Nat.min_id;
    [| lia].
  by rewrite Nat.sub_diag.
Qed.

Lemma put_Ok_kind (cur : value) (p : string) (v cur' : value) :
  put cur p v = Ok cur' → kind_of cur' = kind_of cur ∧ kind_of cur ≠ Primitive.
Proof.
  destruct cur; simpl; try done; try (by intros [= <-]).
  destruct (array_index p); [by intros [= <-] |].
  destruct (JsString.eqb p "length"); [| by intros [= <-]].
  destruct (set_length elems v); simpl; [by intros [= <-] | done].
Qed.

(** A write to an object returns; the one write that can raise is that
    of the [length] of an array, and what it raises is a RangeError. *)
Lemma put_outcome (cur : value) (p : string) (v : value) :
  kind_of cur ≠ Primitive →
  (∃ cur', put cur p v = Ok cur')
  ∨ (put cur p v = Throw RangeError ∧ p = "length").
Proof.
  destruct cur; simpl; try done; eauto.
  intros _. destruct (array_index p); [eauto |].
  destruct (JsString.eqb p "length") eqn:Hl; [| eauto].
  apply JsStringFacts.eqb_true in Hl.
  unfold set_length.
  destruct (to_N (to_number v)) as [n|]; simpl; [| eauto].
  destruct (N.ltb n 4294967296); simpl; eauto.
Qed.

Lemma put_mapping (props : gmap string value) (p : string) (v : value) :
  put (VObj props) p v = Ok (VObj (<[p := v]> props)).
Proof. reflexivity. Qed.

(** Reading back what was written.  The one exception is the [length]
    of an array, which stores the number the value converts to. *)
Lemma get_put (cur : value) (p : string) (v cur' : value) :
  put cur p v = Ok cur' →
  p ≠ "length" ∨ not_a_length v →
  get cur' p = v.
Proof.
  destruct cur; simpl; try done.
  - intros [= <-] _. simpl. unfold lookup_own. by rewrite lookup_insert_eq.
  - destruct (array_index p) as [i|] eqn:Hi.
    { intros [= <-] _. simpl. rewrite Hi. apply nth_set_elem. }
    destruct (JsString.eqb p "length") eqn:Hl.
    { apply JsStringFacts.eqb_true in Hl. intros Hput [Hne | Hv]; [done |].
      unfold set_length in Hput. by rewrite Hv in Hput. }
    intros [= <-] _. simpl. rewrite Hi, Hl.
    unfold lookup_own. by rewrite lookup_insert_eq.
  - intros [= <-] _. simpl. unfold lookup_own. by rewrite lookup_insert_eq.
  - intros [= <-] _. simpl. unfold lookup_own. by rewrite lookup_insert_eq.
Qed.

Lemma empty_mapping_not_a_length : not_a_length (VObj ∅).
Proof. reflexivity. Qed.

Lemma attachment_not_a_length (f : File) (props : gmap string value) :
  not_a_length (VFile f props).
Proof. reflexivity. Qed.

Lemma get_container_of (cur : value) (p : string) :
  is_container (get cur p) = true → kind_of cur ≠ Primitive.
Proof. destruct cur; simpl; done. Qed.

(** The slot a mutated object sits in reads back the mutated object. *)
Lemma get_with_child (cur : value) (p : string) (child : value) :
  is_container (get cur p) = true →
  get (with_child cur p child) p = child.
Proof.
  destruct cur; simpl; try done;
    try (intros _; unfold lookup_own; by rewrite lookup_insert_eq).
  destruct (array_index p) as [i|] eqn:Hi; simpl; rewrite Hi.
  - intros Hc.
    destruct (decide (i < List.length elems)) as [Hlt|Hge].
    + apply nth_lookup_Some with (d := VUndef).
      by apply list_lookup_insert_eq.
    + rewrite nth_overflow in Hc by lia. done.
  - destruct (JsString.eqb p "length").
    { unfold is_container. simpl. by rewrite andb_false_r. }
    intros _. unfold lookup_own. by rewrite lookup_insert_eq.
Qed.

Lemma with_child_kind (cur : value) (p : string) (child : value) :
  kind_of (with_child cur p child) = kind_of cur.
Proof. destruct cur; simpl; try done. by destruct (array_index p). Qed.

End PropertyFacts.

(** * Facts about the deep read and the deep write *)

Module DeepFacts.
Import PropertyFacts.

Lemma container_test (v : value) :
  negb (truthy v) || negb (typeof_object v) = negb (is_container v).
Proof. unfold is_container. by rewrite negb_andb. Qed.

Lemma get_path_primitive (cur : value) (parts : list string) :
  is_container cur = false → parts ≠ [] → get_path cur parts = VUndef.
Proof.
  intros Hc Hne. destruct parts as [|p rest]; [done |].
  simpl. by rewrite container_test, Hc.
Qed.

Lemma get_path_step (cur : value) (p : string) (rest : list string) :
  is_container cur = true → get_path cur (p :: rest) = get_path (get cur p) rest.
Proof. intros Hc. simpl. by rewrite container_test, Hc. Qed.

Lemma get_path_empty_mapping (parts : list string) :
  parts ≠ [] → get_path (VObj ∅) parts = VUndef.
Proof.
  intros Hne. destruct parts as [|p rest]; [done |].
  rewrite get_path_step by done.
  destruct rest; [done |]. by apply get_path_primitive.
Qed.

Lemma get_path_container (cur : value) (parts : list string) :
  is_container (get_path cur parts) = true → is_container cur = true.
Proof.
  destruct parts as [|p rest]; [done |].
  destruct (is_container cur) eqn:Hc; [done |].
  by rewrite get_path_primitive.
Qed.

(** One turn of the loop of [setDeep], when it is not the last one. *)
Lemma set_path_step (cur : value) (p : string) (rest : list string)
    (v : value) :
  rest ≠ [] →
  set_path cur (p :: rest) v =
    (cur1 ← (if negb (is_container (get cur p)) then put cur p (VObj ∅)
             else Ok cur);
     child ← set_path (get cur1 p) rest v;
     Ok (with_child cur1 p child)).
Proof.
  intros Hne. destruct rest as [|q rest]; [done |].
  simpl. by rewrite container_test.
Qed.

(** What the test of an intermediate segment leaves in the slot: the
    object that was there, or a fresh empty mapping. *)
Lemma ensured (cur : value) (p : string) (cur1 : value) :
  (if negb (is_container (get cur p)) then put cur p (VObj ∅) else Ok cur)
    = Ok cur1 →
  kind_of cur1 = kind_of cur ∧ kind_of cur ≠ Primitive
  ∧ get cur1 p = (if is_container (get cur p) then get cur p else VObj ∅).
Proof.
  destruct (is_container (get cur p)) eqn:Hc; simpl.
  - intros [= <-]. split_and!; [done | | done].
    by apply (get_container_of cur p).
  - intros Hput. destruct (put_Ok_kind _ _ _ _ Hput) as [Hk Hp].
    split_and!; [done | done |].
    eapply get_put; [eassumption |]. right. apply empty_mapping_not_a_length.
Qed.

Lemma ensured_container (cur : value) (p : string) (cur1 : value) :
  (if negb (is_container (get cur p)) then put cur p (VObj ∅) else Ok cur)
    = Ok cur1 →
  is_container (get cur1 p) = true.
Proof.
  intros H. destruct (ensured _ _ _ H) as (_ & _ & ->).
  by destruct (is_container (get cur p)) eqn:Hc.
Qed.

Lemma bind_Ok {A B : Type} (r : result A) (k : A → result B) (b : B) :
  (x ← r; k x) = Ok b → ∃ a, r = Ok a ∧ k a = Ok b.
Proof. destruct r as [a|e]; simpl; [eauto | done]. Qed.

(** A deep write that returns was made on an object, and leaves an object
    of the same kind at the root. *)
Lemma set_path_kind (parts : list string) (cur v cur' : value) :
  parts ≠ [] → set_path cur parts v = Ok cur' →
  kind_of cur' = kind_of cur ∧ kind_of cur ≠ Primitive.
Proof.
  destruct parts as [|p rest]; [done |]. intros _.
  destruct rest as [|q rest].
  - apply put_Ok_kind.
  - rewrite set_path_step by done. intros H.
    apply bind_Ok in H as (cur1 & H1 & H).
    apply bind_Ok in H as (child & _ & [= <-]).
    destruct (ensured _ _ _ H1) as (Hk & Hp & _).
    by rewrite with_child_kind.
Qed.

(** A deep write on an object returns, unless a segment of the path is
    [length]: then it can raise the RangeError of an array length. *)
Lemma set_path_outcome (parts : list string) (cur v : value) :
  kind_of cur ≠ Primitive →
  (∃ cur', set_path cur parts v = Ok cur')
  ∨ (set_path cur parts v = Throw RangeError ∧ In "length" parts).
Proof.
  revert cur. induction parts as [|p rest IH]; intros cur Hk; [simpl; eauto |].
  destruct rest as [|q rest].
  { destruct (put_outcome cur p v Hk) as [? | [? ->]]; [by left | right].
    split; [done | by left]. }
  rewrite set_path_step by done.
  destruct (if negb (is_container (get cur p)) then put cur p (VObj ∅)
            else Ok cur) as [cur1|e] eqn:H1.
  - pose proof (ensured_container _ _ _ H1) as Hc.
    apply container_kind in Hc. cbn [mbind result_bind].
    destruct (IH (get cur1 p) Hc) as [[child ->] | [-> Hin]]; simpl;
      [left; eauto | right; split; [done | by right]].
  - destruct (is_container (get cur p)); simpl in H1; [done |].
    destruct (put_outcome cur p (VObj ∅) Hk) as [[? Heq] | [Heq ->]];
      rewrite Heq in H1; [done |].
    injection H1 as <-. simpl. right. split; [done | by left].
Qed.

(** What a deep write stored is what a deep read of the same path finds. *)
Lemma get_set_path (parts : list string) (cur v cur' : value) :
  parts ≠ [] → set_path cur parts v = Ok cur' →
  List.last parts "" ≠ "length" ∨ not_a_length v →
  get_path cur' parts = v.
Proof.
  revert cur cur'. induction parts as [|p rest IH]; intros cur cur'; [done |].
  intros _ Hset Hlast.
  pose proof (set_path_kind (p :: rest) _ _ _ ltac:(done) Hset) as [Hk Hp].
  rewrite get_path_step by (apply container_kind; congruence).
  destruct rest as [|q rest].
  - simpl in *. eapply get_put; eassumption.
  - rewrite set_path_step in Hset by done.
    apply bind_Ok in Hset as (cur1 & H1 & Hset).
    apply bind_Ok in Hset as (child & Hchild & [= <-]).
    rewrite get_with_child by (eapply ensured_container; eassumption).
    by apply (IH (get cur1 p)).
Qed.


Lemma with_node_kind (parts : list string) (cur node : value) :
  parts ≠ [] → kind_of (with_node cur parts node) = kind_of cur.
Proof. destruct parts; [done |]. intros _. apply with_child_kind. Qed.

(** The object found along a path reads back, at the same path, the
    object it was mutated into. *)
Lemma get_path_with_node (parts : list string) (cur node : value) :
  is_container (get_path cur parts) = true →
  get_path (with_node cur parts node) parts = node.
Proof.
  revert cur. induction parts as [|p rest IH]; intros cur Hc; [done |].
  pose proof (get_path_container _ _ Hc) as Hcur.
  rewrite get_path_step in Hc by done.
  simpl with_node.
  rewrite get_path_step
    by (apply container_kind; rewrite with_child_kind; by apply container_kind).
  rewrite get_with_child by (by apply get_path_container in Hc).
  by apply IH.
Qed.

End DeepFacts.

(** * Facts about plain accesses *)

Module PlainFacts.
Import PropertyFacts DeepFacts.

Lemma plain_for_kind (cur : value) (p : string) :
  plain_for cur p = true → kind_of cur ≠ Primitive.
Proof. by destruct cur. Qed.

Lemma put_plain_for (cur : value) (p : string) (v : value) :
  plain_for cur p = true →
  ∃ cur', put cur p v = Ok cur' ∧ get cur' p = v.
Proof.
  destruct cur; simpl; try done.
  - intros _. eexists. split; [done |]. simpl. unfold lookup_own.
    by rewrite lookup_insert_eq.
  - destruct (array_index p) as [i|] eqn:Hi; [| done]. intros _.
    eexists. split; [done |]. simpl. rewrite Hi. apply nth_set_elem.
Qed.

Lemma ensure_plain (cur : value) (p : string) :
  plain_for cur p = true →
  ∃ cur1,
    (if negb (is_container (get cur p)) then put cur p (VObj ∅) else Ok cur)
    = Ok cur1.
Proof.
  intros Hp. destruct (is_container (get cur p)); simpl; [eauto |].
  destruct (put_plain_for cur p (VObj ∅) Hp) as (cur1 & -> & _). eauto.
Qed.

(** A deep write along a plain walk returns. *)
Lemma set_path_plain (parts : list string) (cur v : value) :
  plain_along cur parts = true → ∃ cur', set_path cur parts v = Ok cur'.
Proof.
  revert cur. induction parts as [|p rest IH]; intros cur; [simpl; eauto |].
  intros [Hp Hrest]%andb_true_iff.
  destruct rest as [|q rest].
  - destruct (put_plain_for cur p v Hp) as (cur' & Hput & _). eauto.
  - rewrite set_path_step by done.
    destruct (ensure_plain cur p Hp) as (cur1 & H1). rewrite H1.
    cbn [mbind result_bind].
    destruct (ensured _ _ _ H1) as (_ & _ & Hslot). rewrite <- Hslot in Hrest.
    destruct (IH (get cur1 p) Hrest) as (child & ->). simpl. eauto.
Qed.

(** Along a plain walk, a deep read finds what the deep write stored. *)
Lemma get_set_path_plain (parts : list string) (cur v cur' : value) :
  parts ≠ [] → plain_along cur parts = true →
  set_path cur parts v = Ok cur' → get_path cur' parts = v.
Proof.
  revert cur cur'. induction parts as [|p rest IH]; intros cur cur'; [done |].
  intros _ [Hp Hrest]%andb_true_iff Hset.
  pose proof (set_path_kind (p :: rest) _ _ _ ltac:(done) Hset) as [Hk Hprim].
  rewrite get_path_step by (apply container_kind; congruence).
  destruct rest as [|q rest].
  - simpl in *. destruct (put_plain_for cur p v Hp) as (cur'' & Hput & Hget).
    congruence.
  - rewrite set_path_step in Hset by done.
    apply bind_Ok in Hset as (cur1 & H1 & Hset).
    apply bind_Ok in Hset as (child & Hchild & [= <-]).
    rewrite get_with_child by (eapply ensured_container; eassumption).
    destruct (ensured _ _ _ H1) as (_ & _ & Hslot). rewrite <- Hslot in Hrest.
    by apply (IH (get cur1 p)).
Qed.

Lemma setDeep_plain (obj : value) (path : string) (v : value) :
  plain_along obj (path_parts path) = true →
  ∃ obj', setDeep obj path v = Ok obj'
          ∧ kind_of obj' = kind_of obj
          ∧ (path_parts path ≠ [] → getDeep obj' path = v).
Proof.
  intros Hplain. unfold setDeep, getDeep.
  destruct (path_parts path) as [|p rest] eqn:Hparts.
  - exists obj. by split_and!.
  - cbn [List.length Nat.eqb].
    destruct (set_path_plain (p :: rest) obj v Hplain) as (obj' & Hset).
    exists obj'. split_and!; [done | |].
    + by destruct (set_path_kind (p :: rest) _ _ _ ltac:(done) Hset).
    + intros _. by apply (get_set_path_plain (p :: rest) obj).
Qed.

End PlainFacts.

(** * The frame of a deep write *)

Module FrameFacts.
Import PropertyFacts DeepFacts.

Lemma get_put_other (cur : value) (a b : string) (v cur' : value) :
  kind_of cur ≠ Array → a ≠ b → put cur a v = Ok cur' →
  get cur' b = get cur b.
Proof.
  intros Hk Hne.
  destruct cur; simpl; try done; intros [= <-]; simpl;
    unfold lookup_own; by rewrite lookup_insert_ne.
Qed.

Lemma get_with_child_other (cur : value) (a b : string) (child : value) :
  kind_of cur ≠ Array → a ≠ b →
  get (with_child cur a child) b = get cur b.
Proof.
  intros Hk Hne.
  destruct cur; simpl; try done;
    unfold lookup_own; by rewrite lookup_insert_ne.
Qed.

Lemma get_path_app (cur : value) (l1 l2 : list string) :
  get_path cur (l1 ++ l2) = get_path (get_path cur l1) l2.
Proof.
  revert cur. induction l1 as [|p l1 IH]; intros cur; [done |].
  simpl. destruct (negb (truthy cur) || negb (typeof_object cur)); [| apply IH].
  by destruct l2.
Qed.

(** A deep write leaves alone what is read along a path that leaves the
    path written at a node that is no array. *)
Lemma set_path_frame (pre : list string) (a b : string)
    (ps qs : list string) (cur v cur' : value) :
  a ≠ b → kind_of (get_path cur pre) ≠ Array →
  set_path cur (pre ++ a :: ps) v = Ok cur' →
  get_path cur' (pre ++ b :: qs) = get_path cur (pre ++ b :: qs).
Proof.
  intros Hne. revert cur cur'.
  induction pre as [|c pre IH]; intros cur cur' Hk Hset.
  - simpl app in *. simpl get_path in Hk.
    pose proof (set_path_kind (a :: ps) _ _ _ ltac:(done) Hset) as [Hk' Hp].
    rewrite !get_path_step by (apply container_kind; congruence).
    f_equal. destruct ps as [|q ps].
    + by apply (get_put_other cur a b v).
    + rewrite set_path_step in Hset by done.
      apply bind_Ok in Hset as (cur1 & H1 & Hset).
      apply bind_Ok in Hset as (child & _ & [= <-]).
      destruct (ensured _ _ _ H1) as (Hk1 & _ & _).
      rewrite get_with_child_other by (done || congruence).
      destruct (is_container (get cur a)); simpl in H1.
      * by injection H1 as <-.
      * by apply (get_put_other cur a b (VObj ∅)).
  - pose proof (set_path_kind ((c :: pre) ++ a :: ps) _ _ _ ltac:(done) Hset)
      as [Hk' Hp].
    simpl app in *.
    rewrite get_path_step in Hk by (by apply container_kind).
    rewrite !get_path_step by (apply container_kind; congruence).
    rewrite set_path_step in Hset by (by destruct pre).
    apply bind_Ok in Hset as (cur1 & H1 & Hset).
    apply bind_Ok in Hset as (child & Hchild & [= <-]).
    rewrite get_with_child by (eapply ensured_container; eassumption).
    destruct (ensured _ _ _ H1) as (_ & _ & Hslot).
    rewrite Hslot in Hchild.
    destruct (is_container (get cur c)) eqn:Hc.
    + by apply IH.
    + rewrite (IH (VObj ∅) child); [| | done];
        [| destruct pre; [done | by rewrite get_path_empty_mapping]].
      rewrite get_path_empty_mapping by (by destruct pre).
      by rewrite get_path_primitive by (done || by destruct pre).
Qed.

End FrameFacts.

Module ListFacts.
Import JsStringFacts.











End ListFacts.

Module LoopFacts.

Lemma for_each_app {A S : Type} (body : S → A → result S) (st : S)
    (l1 l2 : list A) :
  for_each body st (l1 ++ l2) =
    (st' ← for_each body st l1; for_each body st' l2).
Proof.
  revert st. induction l1 as [|x l1 IH]; intros st; [done |].
  simpl. destruct (body st x) as [st'|e]; simpl; [apply IH | done].
Qed.

(** An entry whose turn of a loop changes nothing can be left out. *)
Lemma for_each_skip {A S : Type} (body : S → A → result S) (x : A)
    (st : S) (l1 l2 : list A) :
  (∀ st', body st' x = Ok st') →
  for_each body st (l1 ++ x :: l2) = for_each body st (l1 ++ l2).
Proof.
  intros Hx. rewrite !for_each_app.
  destruct (for_each body st l1) as [st'|e]; simpl; [| done].
  by rewrite Hx.
Qed.


Lemma plain_loop_returns {A S : Type} (plain : S → A → bool)
    (body : S → A → result S) (P : S → Prop) (l : list A) (st : S) :
  (∀ st x, P st → plain st x = true → ∃ st', body st x = Ok st' ∧ P st') →
  plain_loop plain body st l = true → P st →
  ∃ st', for_each body st l = Ok st' ∧ P st'.
Proof.
  intros Hbody. revert st. induction l as [|x l IH]; intros st; [simpl; eauto |].
  intros [Hx Hrest]%andb_true_iff Hst.
  destruct (Hbody st x Hst Hx) as (st1 & H1 & Hst1).
  rewrite H1 in Hrest. simpl. rewrite H1. simpl. by apply IH.
Qed.

Lemma plain_loop_throws {A S : Type} (plain : S → A → bool)
    (body : S → A → result S) (P : S → Prop) (E : A → error → Prop)
    (l : list A) (st : S) (e : error) :
  (∀ st x st', P st → body st x = Ok st' → P st') →
  (∀ st x e, P st → plain st x = true → body st x = Throw e → E x e) →
  plain_loop plain body st l = true → P st →
  for_each body st l = Throw e → ∃ x, In x l ∧ E x e.
Proof.
  intros Hkeep Hthrow. revert st.
  induction l as [|x l IH]; intros st; [done |].
  intros [Hx Hrest]%andb_true_iff Hst. simpl.
  destruct (body st x) as [st1|e1] eqn:H1; simpl.
  - intros H. destruct (IH st1 Hrest (Hkeep _ _ _ Hst H1) H) as (y & Hy & He).
    exists y. split; [by right | done].
  - intros [= ->]. exists x. split; [by left |]. by eapply Hthrow.
Qed.

Lemma plain_loop_step {A S : Type} (plain : S → A → bool)
    (body : S → A → result S) (st st' : S) (x : A) (l : list A) :
  plain_loop plain body st (x :: l) = true → body st x = Ok st' →
  plain st x = true ∧ plain_loop plain body st' l = true.
Proof.
  intros [Hx Hrest]%andb_true_iff H. rewrite H in Hrest. done.
Qed.

End LoopFacts.

(** * The statements of the specification *)

Section Claims.

Variable Date_parse : string → option Z.
Variable JSON_parse : string → option value.

Local Abbreviation castValue := (castValue Date_parse JSON_parse).
Local Abbreviation parse_entry := (parse_entry Date_parse JSON_parse).
Local Abbreviation parseTypedFormData :=
  (parseTypedFormData Date_parse JSON_parse).
Local Abbreviation cast_failure := (cast_failure Date_parse JSON_parse).
Local Abbreviation own_error := (own_error Date_parse JSON_parse).
Local Abbreviation plain_run := (plain_run Date_parse JSON_parse).

Lemma cast_array (raw : string) (opts : ParseOptions) (sep : option string)
    (parsed : value) :
  castValue "array" raw opts sep = Ok parsed →
  ∃ items, parsed = VArr items ∅ ∧ spread parsed = Ok items.
Proof. intros [= <-]. eexists. split; reflexivity. Qed.

Lemma setDeep_outcome (obj : value) (path : string) (v : value) :
  kind_of obj ≠ Primitive →
  (∃ obj', setDeep obj path v = Ok obj' ∧ kind_of obj' = kind_of obj)
  ∨ (setDeep obj path v = Throw RangeError ∧ addresses_length path).
Proof.
  intros Hk. unfold setDeep, addresses_length.
  destruct (path_parts path) as [|p rest] eqn:Hparts; [left; eauto |].
  cbn [List.length Nat.eqb].
  destruct (DeepFacts.set_path_outcome (p :: rest) obj v Hk)
    as [[obj' Hset] | Hset]; [left | by right].
  exists obj'. split; [done |].
  by destruct (DeepFacts.set_path_kind (p :: rest) _ _ _ ltac:(done) Hset).
Qed.

Lemma getDeep_setDeep (obj : value) (path : string) (v obj' : value) :
  setDeep obj path v = Ok obj' →
  path_parts path ≠ [] →
  List.last (path_parts path) "" ≠ "length" ∨ not_a_length v →
  getDeep obj' path = v.
Proof.
  intros Hset Hparts Hlast. unfold getDeep.
  apply DeepFacts.get_set_path with (cur := obj); [done | | done].
  unfold setDeep in Hset. destruct (path_parts path); [done | exact Hset].
Qed.

(** The turn of the main loop on a field that is no list field and
    carries no attachment: skipped, or cast and deep-written merged. *)
Lemma parse_entry_assign (opts : ParseOptions) (out : value)
    (listEntries : list ListEntry) (rawName : string) (rawVal : raw_value) :
  let field := parseFieldName rawName in
  type field ≠ "list" →
  is_attachment rawVal = false →
  parse_entry opts (out, listEntries) (rawName, rawVal) =
    if ignoreEmpty opts && is_empty (trim (to_String rawVal))
    then Ok (out, listEntries)
    else
      parsed ← castValue (type field) (to_String rawVal) opts
                 (arraySeparator field);
      out' ← setDeep out (key field)
               (merged_value (JsString.eqb (type field) "array")
                  (getDeep out (key field)) parsed);
      Ok (out', listEntries).
Proof.
  intros field Htype Hfile.
  unfold parse_entry. fold field.
  apply JsStringFacts.eqb_false in Htype. rewrite Htype.
  assert (Hbody :
    (if ignoreEmpty opts && is_empty (trim (to_String rawVal))
     then Ok (out, listEntries)
     else
       parsed ← castValue (type field) (to_String rawVal) opts
                  (arraySeparator field);
       if JsString.eqb (type field) "array" then
         let existing := getDeep out (key field) in
         items ← spread parsed;
         out' ←
           (if isArray existing then
              old ← spread existing;
              setDeep out (key field) (array_of (old ++ items))
            else if negb (is_undefined existing) then
              setDeep out (key field) (array_of (existing :: items))
            else setDeep out (key field) parsed);
         Ok (out', listEntries)
       else
         let existing := getDeep out (key field) in
         out' ←
           (if is_undefined existing then setDeep out (key field) parsed
            else if isArray existing then
              old ← spread existing;
              setDeep out (key field) (array_of (old ++ [parsed]))
            else setDeep out (key field) (array_of [existing; parsed]));
         Ok (out', listEntries))
    = (if ignoreEmpty opts && is_empty (trim (to_String rawVal))
       then Ok (out, listEntries)
       else
         parsed ← castValue (type field) (to_String rawVal) opts
                    (arraySeparator field);
         out' ← setDeep out (key field)
                  (merged_value (JsString.eqb (type field) "array")
                     (getDeep out (key field)) parsed);
         Ok (out', listEntries))).
  { destruct (ignoreEmpty opts && is_empty (trim (to_String rawVal)));
      [done |].
    destruct (castValue (type field) (to_String rawVal) opts
                (arraySeparator field)) as [parsed|e] eqn:Hcast; [| done].
    cbn [mbind result_bind].
    destruct (JsString.eqb (type field) "array") eqn:Harr.
    - apply JsStringFacts.eqb_true in Harr. rewrite Harr in Hcast.
      destruct (cast_array _ _ _ _ Hcast) as (items & -> & ->).
      cbn [mbind result_bind].
      by destruct (getDeep out (key field)).
    - by destruct (getDeep out (key field)). }
  destruct rawVal; [exact Hbody | done | exact Hbody].
Qed.

Lemma filter_idempotent {A : Type} (f : A → bool) (l : list A) :
  List.filter f (List.filter f l) = List.filter f l.
Proof.
  induction l as [|x l IH]; [done |].
  simpl. destruct (f x) eqn:Hx; [| done]. simpl. by rewrite Hx, IH.
Qed.

Lemma castValue_lenient (type raw : string) (opts : ParseOptions)
    (sep : option string) :
  strict opts = false → ∃ v, castValue type raw opts sep = Ok v.
Proof.
  intros Hstrict. unfold castValue. rewrite Hstrict.
  repeat match goal with
         | |- context [if ?b then _ else _] => destruct b
         | |- context [match ?o with Some _ => _ | None => _ end] => destruct o
         end; eauto.
Qed.

Lemma parseListEntry_lenient (rawName : string) (rawVal : raw_value)
    (opts : ParseOptions) :
  strict opts = false → ∃ r, parseListEntry rawName rawVal opts = Ok r.
Proof.
  intros Hstrict. unfold parseListEntry. rewrite Hstrict.
  repeat match goal with
         | |- context [if ?b then _ else _] => destruct b
         end; eauto.
Qed.

Lemma setDeep_mapping (out : value) (path : string) (v : value) :
  kind_of out = Mapping →
  returns_or_RangeError (addresses_length path)
    (λ out', kind_of out' = Mapping) (setDeep out path v).
Proof.
  intros Hk.
  destruct (setDeep_outcome out path v ltac:(by rewrite Hk))
    as [(out' & Hset & Hk') | Hset]; [left | by right].
  exists out'. split; [done | congruence].
Qed.

Lemma bind_outcome {A B : Type} (cause : Prop) (P : A → Prop) (Q : B → Prop)
    (r : result A) (k : A → result B) :
  returns_or_RangeError cause P r →
  (∀ a, P a → returns_or_RangeError cause Q (k a)) →
  returns_or_RangeError cause Q (x ← r; k x).
Proof.
  intros [(a & -> & Ha) | [-> Hc]] Hk; [by apply Hk | by right].
Qed.

Lemma outcome_weaken {A : Type} (cause cause' : Prop) (P P' : A → Prop)
    (r : result A) :
  returns_or_RangeError cause P r →
  (cause → cause') → (∀ a, P a → P' a) →
  returns_or_RangeError cause' P' r.
Proof.
  intros [(a & -> & Ha) | [-> Hc]] Hcause HP; [left; eauto | right; eauto].
Qed.

Lemma parseListEntry_name (rawName : string) (rawVal : raw_value)
    (opts : ParseOptions) (entry : ListEntry) :
  parseListEntry rawName rawVal opts = Ok (Some entry) →
  name entry = list_name rawName.
Proof.
  unfold parseListEntry.
  repeat match goal with
         | |- context [if ?b then _ else _] => destruct b
         end; try done.
  all: by intros [= <-].
Qed.

Lemma parse_entry_lenient (opts : ParseOptions) (names : list string)
    (st : state) (rawName : string) (rawVal : raw_value) :
  strict opts = false → In rawName names → loop_invariant names st →
  returns_or_RangeError (addresses_length (entry_path rawName))
    (loop_invariant names) (parse_entry opts st (rawName, rawVal)).
Proof.
  intros Hstrict Hin [Hk Hbuf]. destruct st as [out listEntries].
  simpl in Hk, Hbuf. unfold entry_path.
  set (field := parseFieldName rawName).
  assert (Hwrite : ∀ v,
    returns_or_RangeError (addresses_length (key field))
      (loop_invariant names)
      (out' ← setDeep out (key field) v; Ok (out', listEntries))).
  { intros v. eapply bind_outcome; [by apply setDeep_mapping |].
    intros out' Hk'. left. eexists. split; [done |]. by split. }
  destruct (JsString.eqb (type field) "list") eqn:Hlist.
  { unfold parse_entry. fold field. rewrite Hlist.
    destruct (parseListEntry_lenient rawName rawVal opts Hstrict)
      as [r Hparse].
    rewrite Hparse. left. destruct r as [entry|]; simpl.
    - eexists. split; [done |]. split; [done |]. simpl.
      apply Forall_app. split; [done |].
      apply Forall_cons. split; [| done].
      exists rawName. split; [done |]. unfold entry_path. fold field.
      rewrite Hlist. by eapply parseListEntry_name.
    - eexists. split; [done |]. by split. }
  apply JsStringFacts.eqb_false in Hlist.
  destruct (is_attachment rawVal) eqn:Hfile.
  { destruct rawVal as [| f |]; try done.
    unfold parse_entry. fold field.
    apply JsStringFacts.eqb_false in Hlist. rewrite Hlist. apply Hwrite. }
  rewrite parse_entry_assign by done. fold field.
  destruct (ignoreEmpty opts && is_empty (trim (to_String rawVal))).
  { left. eexists. split; [done |]. by split. }
  destruct (castValue_lenient (type field) (to_String rawVal) opts
              (arraySeparator field) Hstrict) as [parsed ->].
  apply Hwrite.
Qed.

Lemma for_each_outcome {A S : Type} (cause : A → Prop) (P : S → Prop)
    (body : S → A → result S) (l : list A) (st : S) :
  (∀ st x, In x l → P st → returns_or_RangeError (cause x) P (body st x)) →
  P st →
  returns_or_RangeError (∃ x, In x l ∧ cause x) P (for_each body st l).
Proof.
  revert st. induction l as [|x l IH]; intros st Hbody Hst.
  - left. eauto.
  - simpl. eapply bind_outcome.
    + eapply outcome_weaken; [apply (Hbody st x); [by left | done] | | done].
      intros Hc. exists x. split; [by left | done].
    + intros st' Hst'.
      eapply outcome_weaken; [apply IH; [| done] | | done].
      * intros st0 y Hy. apply Hbody. by right.
      * intros (y & Hy & Hc). exists y. split; [by right | done].
Qed.

Lemma isPlainObject_kind (v : value) :
  isPlainObject v = true →
  kind_of v = Mapping ∨ ∃ f, kind_of v = Attachment f.
Proof. destruct v; simpl; try done; eauto. Qed.

Lemma put_plain (container : value) (p : string) (v : value) :
  isPlainObject container = true →
  ∃ container', put container p v = Ok container'
    ∧ kind_of container' = kind_of container
    ∧ get container' p = v.
Proof.
  destruct container; simpl; try done; intros _; eexists;
    (split_and!; [done | done |]);
    simpl; unfold lookup_own; by rewrite lookup_insert_eq.
Qed.

Lemma apply_key_set_pair (valueMap : gmap string string) (target : value)
    (keyEntry : ListEntry) :
  apply_key valueMap target keyEntry =
    if is_empty (trim (entry_value keyEntry)) then Ok target
    else set_pair target (name keyEntry) (entry_value keyEntry)
           (default "" (valueMap !! composite (name keyEntry)
                                      (index keyEntry))).
Proof.
  unfold apply_key, set_pair.
  destruct (is_empty (trim (entry_value keyEntry))); [done |].
  destruct (valueMap !! _); simpl;
    by destruct (isPlainObject (getDeep target (name keyEntry))).
Qed.

(** What writing a pair does to a tree whose root is a mapping. *)
Lemma set_pair_outcome (target : value) (group k v : string) :
  kind_of target = Mapping →
  returns_or_RangeError (addresses_length group)
    (λ target',
       kind_of target' = Mapping
       ∧ isPlainObject (getDeep target' group) = true
       ∧ get (getDeep target' group) k = VStr v
       ∧ put (if isPlainObject (getDeep target group)
              then getDeep target group else VObj ∅) k (VStr v)
         = Ok (getDeep target' group))
    (set_pair target group k v).
Proof.
  intros Hk. unfold set_pair.
  set (old := getDeep target group).
  assert (Hfinish : ∀ target1 container,
    kind_of target1 = Mapping →
    getDeep target1 group = container → isPlainObject container = true →
    container = (if isPlainObject old then old else VObj ∅) →
    returns_or_RangeError (addresses_length group)
      (λ target',
         kind_of target' = Mapping
         ∧ isPlainObject (getDeep target' group) = true
         ∧ get (getDeep target' group) k = VStr v
         ∧ put (if isPlainObject old then old else VObj ∅) k (VStr v)
           = Ok (getDeep target' group))
      (if isPlainObject (getDeep target1 group) then
         container' ← put (getDeep target1 group) k (VStr v);
         Ok (with_node target1 (path_parts group) container')
       else Ok target1)).
  { intros target1 container Hk1 Hget Hplain Hold.
    rewrite Hget, Hplain.
    destruct (put_plain container k (VStr v) Hplain)
      as (container' & Hput & Hkind & Hread).
    rewrite Hput. left. eexists. split; [done |].
    assert (Hback : getDeep (with_node target1 (path_parts group) container')
                      group = container').
    { unfold getDeep in *. apply DeepFacts.get_path_with_node.
      rewrite Hget. apply PropertyFacts.container_kind.
      destruct (isPlainObject_kind _ Hplain) as [-> | [f ->]]; done. }
    rewrite Hback. split_and!.
    - unfold getDeep in Hget.
      destruct (path_parts group) as [|p rest].
      + simpl in *. congruence.
      + by rewrite DeepFacts.with_node_kind.
    - destruct container, container'; simpl in *; done.
    - done.
    - by rewrite <- Hold. }
  destruct (isPlainObject old) eqn:Hplain.
  - cbn [mbind result_bind]. by apply (Hfinish target old).
  - destruct (setDeep_outcome target group (VObj ∅) ltac:(by rewrite Hk))
      as [(target1 & Hset & Hk1) | [-> Hc]]; [| by right].
    rewrite Hset. cbn [mbind result_bind].
    assert (Hparts : path_parts group ≠ []).
    { intros Hnil. subst old. unfold getDeep in Hplain.
      rewrite Hnil in Hplain. simpl in Hplain.
      destruct target; simpl in *; done. }
    apply (Hfinish target1 (VObj ∅)); [congruence | | done | done].
    apply (getDeep_setDeep target); [done | done |].
    right. apply PropertyFacts.empty_mapping_not_a_length.
Qed.

Lemma apply_key_outcome (valueMap : gmap string string) (target : value)
    (keyEntry : ListEntry) :
  kind_of target = Mapping →
  returns_or_RangeError (addresses_length (name keyEntry))
    (λ target', kind_of target' = Mapping)
    (apply_key valueMap target keyEntry).
Proof.
  intros Hk. rewrite apply_key_set_pair.
  destruct (is_empty (trim (entry_value keyEntry))); [left; eauto |].
  eapply outcome_weaken; [by apply set_pair_outcome | done |].
  by intros target' [? _].
Qed.

Lemma applyListEntries_outcome (entries : list ListEntry) (target : value) :
  kind_of target = Mapping →
  returns_or_RangeError
    (∃ entry, In entry entries ∧ addresses_length (name entry))
    (λ target', kind_of target' = Mapping)
    (applyListEntries entries target).
Proof.
  intros Hk. unfold applyListEntries.
  destruct (Nat.eqb (List.length entries) 0); [left; eauto |].
  eapply outcome_weaken;
    [apply (for_each_outcome (λ entry, addresses_length (name entry))
              (λ t, kind_of t = Mapping)); [| exact Hk] | | done].
  - intros. by apply apply_key_outcome.
  - intros (entry & Hin & Hc). exists entry. split; [| done].
    by apply List.filter_In in Hin as [? _].
Qed.

(** A lenient parse returns, unless the path of one of its entries has a
    segment [length] and a write to an array length raised. *)
Lemma parse_lenient (entries : list (string * raw_value))
    (opts : ParseOptions) :
  strict opts = false →
  returns_or_RangeError
    (∃ entry, In entry entries ∧ addresses_length (entry_path entry.1))
    (λ _, True) (parseTypedFormData entries opts).
Proof.
  intros Hstrict. unfold parseTypedFormData.
  eapply bind_outcome with (P := loop_invariant (map fst entries)).
  { eapply outcome_weaken;
      [apply (for_each_outcome
                (λ entry, addresses_length (entry_path entry.1))
                (loop_invariant (map fst entries))) | done | done].
    - intros st [rawName rawVal] Hin Hst.
      apply parse_entry_lenient; [done | | done].
      by apply (in_map fst) in Hin.
    - by split. }
  intros [out listEntries] [Hk Hbuf]. simpl in Hk, Hbuf.
  eapply bind_outcome.
  - eapply outcome_weaken; [by apply applyListEntries_outcome | | done].
    intros (entry & Hin & Hc).
    apply (proj1 (List.Forall_forall _ _) Hbuf) in Hin
      as (rawName & Hname & Heq).
    apply in_map_iff in Hname as (e & <- & He).
    exists e. split; [done |]. by rewrite <- Heq.
  - intros out' _. left. destruct (ignoreEmpty opts); eauto.
Qed.

(** The main loop buffers only entries that [parseListEntry] returned. *)
Lemma buffered_entries_parsed (opts : ParseOptions)
    (entries : list (string * raw_value)) (st st' : state) :
  for_each (parse_entry opts) st entries = Ok st' →
  Forall parsed_list_entry st.2 → Forall parsed_list_entry st'.2.
Proof.
  revert st. induction entries as [|[rawName rawVal] entries IH]; intros st.
  - by intros [= <-].
  - simpl. intros Hloop Hst.
    apply DeepFacts.bind_Ok in Hloop as (st1 & Hentry & Hloop).
    apply (IH st1); [done |]. clear IH Hloop.
    destruct st as [out listEntries]. simpl in Hst.
    unfold parse_entry in Hentry.
    destruct (JsString.eqb (type (parseFieldName rawName)) "list").
    + apply DeepFacts.bind_Ok in Hentry as ([entry|] & Hparse & [= <-]);
        [| done].
      simpl. apply Forall_app. split; [done |].
      apply Forall_cons. split; [| done]. by exists rawName, rawVal, opts.
    + assert (Hkeep : ∀ r : result value,
        (out' ← r; Ok (out', listEntries)) = Ok st1 → st1.2 = listEntries).
      { intros [out'|e]; simpl; [by intros [= <-] | done]. }
      assert (st1.2 = listEntries) as ->; [| done].
      destruct rawVal; try (by eapply Hkeep);
        (destruct (ignoreEmpty opts && _); [by injection Hentry as <- |];
         apply DeepFacts.bind_Ok in Hentry as (parsed & _ & Hentry);
         destruct (JsString.eqb _ "array");
           [apply DeepFacts.bind_Ok in Hentry as (items & _ & Hentry) |];
         by eapply Hkeep).
Qed.

Lemma bind_Throw {A B : Type} (r : result A) (k : A → result B) (e : error) :
  (x ← r; k x) = Throw e → r = Throw e ∨ ∃ a, r = Ok a ∧ k a = Throw e.
Proof. destruct r as [a|e']; simpl; [eauto | intros [= ->]; eauto]. Qed.

Lemma castValue_throws (type raw : string) (opts : ParseOptions)
    (sep : option string) (e : error) :
  castValue type raw opts sep = Throw e →
  strict opts = true ∧ cast_failure type raw ∧ e = cast_error type raw.
Proof.
  unfold castValue, cast_failure.
  destruct (JsString.eqb type "string"); [done |].
  destruct (JsString.eqb type "number") eqn:Hn.
  { apply JsStringFacts.eqb_true in Hn as ->.
    destruct (isFinite (StringToNumber raw)) eqn:Hf; [done |]. simpl.
    destruct (strict opts); [| done]. intros [= <-].
    split_and!; [done | left; done | done]. }
  destruct (JsString.eqb type "boolean") eqn:Hb.
  { apply JsStringFacts.eqb_true in Hb as ->.
    destruct (parseBoolean raw) eqn:Hp; [done |].
    destruct (strict opts); [| done]. intros [= <-].
    split_and!; [done | right; left; done | done]. }
  destruct (JsString.eqb type "date") eqn:Hd.
  { apply JsStringFacts.eqb_true in Hd as ->.
    destruct (Date_parse raw) eqn:Hp; [done |].
    destruct (strict opts); [| done]. intros [= <-].
    split_and!; [done | right; right; left; done | done]. }
  destruct (JsString.eqb type "json") eqn:Hj.
  { apply JsStringFacts.eqb_true in Hj as ->.
    destruct (JSON_parse raw) eqn:Hp; [done |].
    destruct (strict opts); [| done]. intros [= <-].
    split_and!; [done | right; right; right; done | done]. }
  by destruct (JsString.eqb type "array").
Qed.

Lemma parseListEntry_throws (rawName : string) (rawVal : raw_value)
    (opts : ParseOptions) (e : error) :
  parseListEntry rawName rawVal opts = Throw e →
  strict opts = true ∧ rejected_list_field rawName
  ∧ e = invalid_list_field rawName.
Proof.
  unfold parseListEntry, rejected_list_field, list_variant, list_name,
    list_index.
  destruct (Nat.ltb_spec (List.length (split "::" rawName)) 4) as [Hlen|_].
  { destruct (strict opts); [| done]. intros [= <-].
    split_and!; [done | by left | done]. }
  destruct (negb _ && negb _) eqn:Hv.
  { destruct (strict opts); [| done]. intros [= <-].
    apply andb_true_iff in Hv as [H1%negb_true_iff H2%negb_true_iff].
    apply JsStringFacts.eqb_false in H1, H2.
    split_and!; [done | right; left; done | done]. }
  destruct (is_empty _ || is_empty _) eqn:Hne; [| done].
  destruct (strict opts); [| done]. intros [= <-].
  apply orb_true_iff in Hne as [H%JsStringFacts.is_empty_true
                               | H%JsStringFacts.is_empty_true];
    (split_and!; [done | | done]); [right; right; left | right; right; right];
    done.
Qed.

(** A turn of the main loop keeps a mapping at the root of the output. *)
Lemma parse_entry_mapping (opts : ParseOptions) (st st' : state)
    (entry : string * raw_value) :
  kind_of st.1 = Mapping → parse_entry opts st entry = Ok st' →
  kind_of st'.1 = Mapping.
Proof.
  destruct st as [out listEntries], entry as [rawName rawVal].
  intros Hk. simpl in Hk.
  assert (Hwrite : ∀ path v,
    (out' ← setDeep out path v; Ok (out', listEntries)) = Ok st' →
    kind_of st'.1 = Mapping).
  { intros path v H. apply DeepFacts.bind_Ok in H as (out' & Hset & [= <-]).
    destruct (setDeep_outcome out path v ltac:(by rewrite Hk))
      as [(o & Ho & Hko) | [Ho _]]; [| congruence].
    simpl. congruence. }
  destruct (JsString.eqb (type (parseFieldName rawName)) "list") eqn:Hlist.
  { unfold parse_entry. rewrite Hlist. intros H.
    apply DeepFacts.bind_Ok in H as ([entry|] & _ & [= <-]); done. }
  apply JsStringFacts.eqb_false in Hlist.
  destruct (is_attachment rawVal) eqn:Hfile.
  { destruct rawVal as [| f |]; try done.
    unfold parse_entry.
    apply JsStringFacts.eqb_false in Hlist. rewrite Hlist. apply Hwrite. }
  rewrite parse_entry_assign by done.
  destruct (ignoreEmpty opts && _); [by intros [= <-] |].
  intros H. apply DeepFacts.bind_Ok in H as (parsed & _ & H).
  by eapply Hwrite.
Qed.

Lemma loop_mapping (opts : ParseOptions) (entries : list (string * raw_value))
    (st st' : state) :
  kind_of st.1 = Mapping → for_each (parse_entry opts) st entries = Ok st' →
  kind_of st'.1 = Mapping.
Proof.
  revert st. induction entries as [|entry entries IH]; intros st Hk.
  - by intros [= <-].
  - simpl. intros H. apply DeepFacts.bind_Ok in H as (st1 & H1 & H).
    apply (IH st1); [| done]. by eapply parse_entry_mapping.
Qed.

(** Writing a pair along a plain walk, into a mapping. *)
Lemma set_pair_plain (target : value) (group k v : string) :
  kind_of target = Mapping → plain_pair target group k = true →
  ∃ target', set_pair target group k v = Ok target'
    ∧ kind_of target' = Mapping
    ∧ isPlainObject (getDeep target' group) = true
    ∧ get (getDeep target' group) k = VStr v
    ∧ put (if isPlainObject (getDeep target group)
           then getDeep target group else VObj ∅) k (VStr v)
      = Ok (getDeep target' group).
Proof.
  intros Hk [Hwalk Hkey]%andb_true_iff.
  destruct (set_pair_outcome target group k v Hk)
    as [(target' & Hset & H) | [Hthrow _]]; [by exists target' |].
  exfalso. unfold set_pair in Hthrow.
  destruct (isPlainObject (getDeep target group)) eqn:Hplain.
  - cbn [mbind result_bind] in Hthrow. rewrite Hplain in Hthrow.
    destruct (put_plain (getDeep target group) k (VStr v) Hplain)
      as (c & Hput & _). by rewrite Hput in Hthrow.
  - destruct (PlainFacts.setDeep_plain target group (VObj ∅) Hwalk)
      as (target1 & Hset & _ & Hget).
    rewrite Hset in Hthrow. cbn [mbind result_bind] in Hthrow.
    destruct (isPlainObject (getDeep target1 group)) eqn:Hplain1; [| done].
    destruct (put_plain (getDeep target1 group) k (VStr v) Hplain1)
      as (c & Hput & _). by rewrite Hput in Hthrow.
Qed.

Lemma apply_key_plain (valueMap : gmap string string) (target : value)
    (keyEntry : ListEntry) :
  kind_of target = Mapping → plain_key target keyEntry = true →
  ∃ target', apply_key valueMap target keyEntry = Ok target'
             ∧ kind_of target' = Mapping.
Proof.
  intros Hk Hplain. rewrite apply_key_set_pair. unfold plain_key in Hplain.
  destruct (is_empty (trim (entry_value keyEntry))); [eauto |].
  simpl in Hplain.
  destruct (set_pair_plain target (name keyEntry) (entry_value keyEntry)
              (default "" (valueMap !! composite (name keyEntry)
                                         (index keyEntry))) Hk Hplain)
    as (target' & -> & Hk' & _). eauto.
Qed.

(** A plain turn of the main loop raises nothing but the errors of the
    parser itself. *)
Lemma parse_entry_plain (opts : ParseOptions) (st : state)
    (entry : string * raw_value) (e : error) :
  plain_turn st entry = true → parse_entry opts st entry = Throw e →
  own_error opts entry e.
Proof.
  destruct st as [out listEntries], entry as [rawName rawVal].
  unfold plain_turn, own_error. cbn [fst snd].
  intros Hplain.
  destruct (JsString.eqb (type (parseFieldName rawName)) "list") eqn:Hlist.
  { unfold parse_entry. rewrite Hlist. intros H.
    apply JsStringFacts.eqb_true in Hlist.
    apply bind_Throw in H as [H | ([entry|] & _ & H)]; [| done ..].
    apply parseListEntry_throws in H as (Hs & Hr & ->).
    split; [done |]. by left. }
  simpl in Hplain.
  assert (Hwrite : ∀ v,
    (out' ← setDeep out (key (parseFieldName rawName)) v;
     Ok (out', listEntries)) = Throw e → False).
  { intros v H.
    destruct (PlainFacts.setDeep_plain out _ v Hplain) as (out' & Hset & _).
    by rewrite Hset in H. }
  destruct (is_attachment rawVal) eqn:Hfile.
  { destruct rawVal as [| f |]; try done.
    unfold parse_entry. rewrite Hlist. intros H. by destruct (Hwrite _ H). }
  rewrite parse_entry_assign
    by (done || by apply JsStringFacts.eqb_false).
  destruct (ignoreEmpty opts && _); [done |].
  intros H. apply bind_Throw in H as [H | (parsed & _ & H)].
  - apply castValue_throws in H as (Hs & Hf & ->).
    split; [done |]. right. split; [| done].
    by apply JsStringFacts.eqb_false.
  - by destruct (Hwrite _ H).
Qed.


Lemma plain_run_throws (opts : ParseOptions)
    (entries : list (string * raw_value)) (e : error) :
  plain_run opts entries = true → parseTypedFormData entries opts = Throw e →
  ∃ entry, In entry entries ∧ own_error opts entry e.
Proof.
  intros [Hloop Hkeys]%andb_true_iff. unfold parseTypedFormData.
  destruct (for_each (parse_entry opts) (VObj ∅, []) entries)
    as [[out listEntries]|e'] eqn:Hrun.
  - cbn [mbind result_bind]. intros H. exfalso.
    assert (Hk : kind_of out = Mapping).
    { by apply (loop_mapping opts entries (VObj ∅, [])
                  (out, listEntries)). }
    unfold applyListEntries in H.
    destruct (Nat.eqb (List.length listEntries) 0).
    { cbn [mbind result_bind] in H. by destruct (ignoreEmpty opts). }
    destruct (LoopFacts.plain_loop_returns plain_key
                (apply_key (build_valueMap (List.filter is_value listEntries)))
                (λ t, kind_of t = Mapping)
                (List.filter is_key listEntries) out)
      as (out' & Hout' & _); [| done | done |].
    + intros t x Ht Hx. by apply apply_key_plain.
    + rewrite Hout' in H. cbn [mbind result_bind] in H.
      by destruct (ignoreEmpty opts).
  - cbn [mbind result_bind]. intros [= ->].
    apply (LoopFacts.plain_loop_throws plain_turn (parse_entry opts)
             (λ _, True) (own_error opts) entries (VObj ∅, []) e);
      [done | | done | done | done].
    intros st x e' _. apply parse_entry_plain.
Qed.

(** C1, amended.  What a non-list entry that carries no attachment and is
    not skipped stores is decided by what a deep read of its path finds,
    not by whether the field occurred before.  When every access of the
    walk along the path is plain, the turn deep-writes there the cast
    value merged with what the deep read finds: the cast value itself
    when nothing is there; the elements already there followed by the new
    value, or by the new elements of an array-typed field, when an array
    is there; otherwise an array that starts with the value found there.
    A deep read of the path then finds that merged value. *)
Theorem C1_multi_value_merge (opts : ParseOptions) (out : value)
    (listEntries : list ListEntry) (rawName : string) (rawVal : raw_value)
    (parsed : value) :
  let field := parseFieldName rawName in
  let merged :=
    merged_value (JsString.eqb (type field) "array")
      (getDeep out (key field)) parsed in
  type field ≠ "list" →
  is_attachment rawVal = false →
  ignoreEmpty opts && is_empty (trim (to_String rawVal)) = false →
  castValue (type field) (to_String rawVal) opts (arraySeparator field)
    = Ok parsed →
  plain_along out (path_parts (key field)) = true →
  ∃ out', setDeep out (key field) merged = Ok out'
          ∧ parse_entry opts (out, listEntries) (rawName, rawVal)
            = Ok (out', listEntries)
          ∧ (path_parts (key field) ≠ [] → getDeep out' (key field) = merged).
Proof.
  intros field merged Htype Hfile Hskip Hcast Hplain.
  destruct (PlainFacts.setDeep_plain out (key field) merged Hplain)
    as (out' & Hset & _ & Hget).
  exists out'. split_and!; [done | | done].
  rewrite parse_entry_assign by done. fold field.
  rewrite Hskip, Hcast. cbn [mbind result_bind]. fold merged.
  by rewrite Hset.
Qed.




(** C5, amended.  A list field the code rejects (fewer than four
    segments, a variant that is neither [key] nor [value] whatever its
    case, or a group name or an index that is the empty text, untrimmed)
    raises the invalid-field error in strict mode, and otherwise is
    dropped: its turn of the loop changes nothing and the parse is the
    parse of the other entries. *)
Theorem C5_rejected_list_field (opts : ParseOptions) (rawName : string)
    (rawVal : raw_value) :
  type (parseFieldName rawName) = "list" →
  rejected_list_field rawName →
  (strict opts = true →
     parseListEntry rawName rawVal opts = Throw (invalid_list_field rawName)
     ∧ ∀ st, parse_entry opts st (rawName, rawVal)
             = Throw (invalid_list_field rawName))
  ∧ (strict opts = false →
       parseListEntry rawName rawVal opts = Ok None
       ∧ (∀ st, parse_entry opts st (rawName, rawVal) = Ok st)
       ∧ ∀ before after,
           parseTypedFormData (before ++ (rawName, rawVal) :: after) opts
           = parseTypedFormData (before ++ after) opts).
Proof.
  intros Htype Hrej.
  assert (Hlist : parseListEntry rawName rawVal opts =
                  if strict opts then Throw (invalid_list_field rawName)
                  else Ok None).
  { unfold parseListEntry.
    destruct (Nat.ltb_spec (List.length (split "::" rawName)) 4) as [|Hlen];
      [done |].
    fold (list_variant rawName) (list_name rawName) (list_index rawName).
    destruct Hrej as [Hlt | [[Hk Hv] | Hempty]]; [lia | |].
    - apply JsStringFacts.eqb_false in Hk, Hv. by rewrite Hk, Hv.
    - destruct (negb (JsString.eqb (list_variant rawName) "key")
                && negb (JsString.eqb (list_variant rawName) "value"));
        [done |].
      by destruct Hempty as [-> | ->]; rewrite ?orb_true_r. }
  assert (Hentry : ∀ st, parse_entry opts st (rawName, rawVal) =
                   if strict opts then Throw (invalid_list_field rawName)
                   else Ok st).
  { intros [out listEntries]. unfold parse_entry.
    rewrite Htype, Hlist. by destruct (strict opts). }
  split; intros Hstrict; rewrite Hstrict in Hlist;
    setoid_rewrite Hstrict in Hentry; [done |].
  split_and!; [done | done |].
  intros before after. unfold parseTypedFormData.
  by rewrite LoopFacts.for_each_skip.
Qed.

(** C6, amended.  With a path of zero segments, a deep write leaves the
    tree as it is, and a deep read returns the tree itself. *)
Theorem C6_zero_segment_path (obj : value) (path : string) (v : value) :
  path_parts path = [] →
  setDeep obj path v = Ok obj ∧ getDeep obj path = obj.
Proof.
  intros Hparts. unfold setDeep, getDeep. by rewrite Hparts.
Qed.

(** The empty text and the texts made of dots are such paths. *)
Lemma only_dots_zero_segments (path : string) :
  only_dots path = true → path_parts path = [].
Proof.
  induction path as [|c rest IH]; [done |].
  cbn [only_dots]. intros [Hc Hrest]%andb_true_iff.
  apply JsStringFacts.eqb_true in Hc. injection Hc as ->.
  unfold path_parts in *.
  rewrite JsStringFacts.split_unfold by done.
  simpl. by apply IH.
Qed.

(** C7.  The cleanup of [ignoreEmpty] is idempotent. *)
Theorem C7_clean_idempotent (obj : value) : clean (clean obj) = clean obj.
Proof.
  induction obj as [| | b | n | s | props IH | elems props _ _ | t props IH
                   | f props IH] using value_nested_ind;
    try done; simpl.
  - f_equal. rewrite <- map_fmap_compose. apply map_fmap_ext.
    intros p x Hp. exact (IH p x Hp).
  - unfold array_of. by rewrite filter_idempotent.
  - f_equal. rewrite <- map_fmap_compose. apply map_fmap_ext.
    intros p x Hp. exact (IH p x Hp).
  - f_equal. rewrite <- map_fmap_compose. apply map_fmap_ext.
    intros p x Hp. exact (IH p x Hp).
Qed.

(** C8.  An entry that carries an attachment and is no list entry
    deep-writes the attachment itself at its resolved path, whatever a
    deep read finds there: no merge takes place.  When the write returns
    and the path has a segment, a deep read of the path finds the
    attachment, not an array; so a later attachment replaces an earlier
    one. *)
Theorem C8_attachment_overwrites (opts : ParseOptions) (out : value)
    (listEntries : list ListEntry) (rawName : string) (f : File) :
  let field := parseFieldName rawName in
  type field ≠ "list" →
  parse_entry opts (out, listEntries) (rawName, RawFile f)
    = (out' ← setDeep out (key field) (VFile f ∅); Ok (out', listEntries))
  ∧ ∀ out', setDeep out (key field) (VFile f ∅) = Ok out' →
      path_parts (key field) ≠ [] →
      getDeep out' (key field) = VFile f ∅.
Proof.
  intros field Htype. split.
  - unfold parse_entry. fold field.
    apply JsStringFacts.eqb_false in Htype. by rewrite Htype.
  - intros out' Hset Hparts. unfold getDeep.
    apply DeepFacts.get_set_path with (cur := out); [done | |].
    + unfold setDeep in Hset.
      destruct (path_parts (key field)); [done | exact Hset].
    + right. apply PropertyFacts.attachment_not_a_length.
Qed.

(** C9.  Casting an empty or blank text to [number] gives the number 0,
    strict or not: the numeric parse of such a text is 0, which is
    finite. *)
Theorem C9_blank_number_is_zero (raw : string) (opts : ParseOptions)
    (sep : option string) :
  is_empty (trim raw) = true →
  castValue "number" raw opts sep = Ok (VNum zero).
Proof.
  intros Hblank. unfold castValue, StringToNumber. by rewrite Hblank.
Qed.

(** C10.  With [ignoreEmpty], an entry that is no list entry, carries no
    attachment and whose text is blank (empty once trimmed) leaves the
    state of the loop as it is, and parsing the entries with it gives
    what parsing them without it gives. *)
Theorem C10_blank_value_skipped (opts : ParseOptions) (rawName : string)
    (rawVal : raw_value) :
  ignoreEmpty opts = true →
  type (parseFieldName rawName) ≠ "list" →
  is_attachment rawVal = false →
  is_empty (trim (to_String rawVal)) = true →
  (∀ st, parse_entry opts st (rawName, rawVal) = Ok st)
  ∧ ∀ before after,
      parseTypedFormData (before ++ (rawName, rawVal) :: after) opts
      = parseTypedFormData (before ++ after) opts.
Proof.
  intros Hopt Htype Hfile Hblank.
  assert (Hskip : ∀ st, parse_entry opts st (rawName, rawVal) = Ok st).
  { intros [out listEntries]. unfold parse_entry.
    apply JsStringFacts.eqb_false in Htype. rewrite Htype, Hopt, Hblank.
    by destruct rawVal. }
  split; [exact Hskip |].
  intros before after. unfold parseTypedFormData.
  by rewrite LoopFacts.for_each_skip.
Qed.

End Claims.

(** * Instances, counterexamples and the examples of the specification *)




(** C1 as stated fails: the first occurrence of a field is not stored as
    it is when its path already holds something.  Here [user] occurs for
    the first time, after [user.name], and is promoted to an array. *)
Lemma C1_counterexample :
  Sample.parse [ ("user.name", RawString "John") ] DEFAULT_OPTIONS
  = Ok (VObj {[ "user" := VObj {[ "name" := VStr "John" ]} ]})
  ∧ parse_entry Sample.Date_parse Sample.JSON_parse DEFAULT_OPTIONS
      (VObj {[ "user" := VObj {[ "name" := VStr "John" ]} ]}, [])
      ("user", RawString "Bob")
    = Ok (VObj {[ "user" := VArr [VObj {[ "name" := VStr "John" ]};
                                  VStr "Bob"] ∅ ]}, [])
  ∧ Sample.parse [ ("user.name", RawString "John"); ("user", RawString "Bob") ]
      DEFAULT_OPTIONS
    = Ok (VObj {[ "user" := VArr [VObj {[ "name" := VStr "John" ]};
                                  VStr "Bob"] ∅ ]}).
Proof. vm_compute. repeat split; reflexivity. Qed.

Lemma C1_witness :
  plain_along (VObj {[ "x" := VStr "A" ]}) (path_parts "x") = true
  ∧ parse_entry Sample.Date_parse Sample.JSON_parse DEFAULT_OPTIONS
      (VObj {[ "x" := VStr "A" ]}, []) ("string::x", RawString "B")
    = Ok (VObj {[ "x" := VArr [VStr "A"; VStr "B"] ∅ ]}, []).
Proof.
  split; [reflexivity |].
  destruct (C1_multi_value_merge Sample.Date_parse Sample.JSON_parse
              DEFAULT_OPTIONS (VObj {[ "x" := VStr "A" ]}) []
              "string::x" (RawString "B") (VStr "B"))
    as (out' & Hset & Hstep & _).
  - vm_compute. discriminate.
  - reflexivity.
  - reflexivity.
  - reflexivity.
  - reflexivity.
  - rewrite Hstep. vm_compute in Hset. by injection Hset as <-.
Defined.







(** C5 as stated fails: a group name that is blank but not empty is
    accepted, in strict mode too, and its pair reaches the output. *)
Lemma C5_counterexample :
  type (parseFieldName "list::key:: ::0") = "list"
  ∧ rejected_as_specified "list::key:: ::0"
  ∧ parseListEntry "list::key:: ::0" (RawString "k") Sample.strict_options
    = Ok (Some {| variant := KeyVariant; name := " "; index := "0";
                  entry_value := "k" |})
  ∧ Sample.parse [ ("list::key:: ::0", RawString "k") ] DEFAULT_OPTIONS
    = Ok (VObj {[ " " := VObj {[ "k" := VStr "" ]} ]}).
Proof.
  split; [reflexivity |]. split; [right; right; left; reflexivity |].
  split; reflexivity.
Qed.

Lemma C5_witness :
  parseListEntry "list::key::env" (RawString "k") Sample.strict_options
  = Throw (invalid_list_field "list::key::env")
  ∧ parseListEntry "list::key::env" (RawString "k") DEFAULT_OPTIONS = Ok None.
Proof.
  destruct (C5_rejected_list_field Sample.Date_parse Sample.JSON_parse
              Sample.strict_options "list::key::env" (RawString "k"))
    as [Hstrict _].
  { reflexivity. }
  { left. vm_compute. lia. }
  destruct (C5_rejected_list_field Sample.Date_parse Sample.JSON_parse
              DEFAULT_OPTIONS "list::key::env" (RawString "k"))
    as [_ Hlenient].
  { reflexivity. }
  { left. vm_compute. lia. }
  split.
  - exact (proj1 (Hstrict eq_refl)).
  - exact (proj1 (Hlenient eq_refl)).
Defined.

(** C6 as stated fails: a deep read with a path of zero segments returns
    the tree, not [undefined]. *)
Lemma C6_counterexample :
  path_parts "" = []
  ∧ getDeep Sample.array_at_a "" = Sample.array_at_a
  ∧ is_undefined (getDeep Sample.array_at_a "") = false
  ∧ path_parts ".." = []
  ∧ is_undefined (getDeep Sample.array_at_a "..") = false.
Proof. vm_compute. repeat split; reflexivity. Qed.

Lemma C6_witness :
  setDeep Sample.array_at_a ".." (VStr "v") = Ok Sample.array_at_a
  ∧ getDeep Sample.array_at_a ".." = Sample.array_at_a.
Proof. apply (C6_zero_segment_path Sample.array_at_a ".." (VStr "v")). reflexivity. Defined.

Lemma C8_witness :
  parse_entry Sample.Date_parse Sample.JSON_parse DEFAULT_OPTIONS
    (Sample.attachment_at_a, []) ("file::a", RawFile 2)
  = Ok (VObj {[ "a" := VFile 2 ∅ ]}, []).
Proof.
  destruct (C8_attachment_overwrites Sample.Date_parse Sample.JSON_parse
              DEFAULT_OPTIONS Sample.attachment_at_a [] "file::a" 2%N) as [Hstep _].
  - vm_compute. discriminate.
  - rewrite Hstep. reflexivity.
Defined.

Lemma C9_witness :
  castValue Sample.Date_parse Sample.JSON_parse "number" "  " Sample.strict_options
    None = Ok (VNum zero).
Proof.
  apply (C9_blank_number_is_zero Sample.Date_parse Sample.JSON_parse).
  reflexivity.
Defined.

Lemma C10_witness :
  Sample.parse [ ("string::name", RawString "  ");
                 ("number::age", RawString "22") ] Sample.ignoreEmpty_options
  = Sample.parse [ ("number::age", RawString "22") ] Sample.ignoreEmpty_options.
Proof.
  destruct (C10_blank_value_skipped Sample.Date_parse Sample.JSON_parse
              Sample.ignoreEmpty_options "string::name" (RawString "  "))
    as [_ Hparse].
  - reflexivity.
  - vm_compute. discriminate.
  - reflexivity.
  - reflexivity.
  - exact (Hparse [] [ ("number::age", RawString "22") ]).
Defined.

(** The examples of section 8 of the specification, run on the model. *)
Module SpecExamples.
Import Sample.

Example number_field :
  parse [ ("number::x", RawString "22") ] DEFAULT_OPTIONS
  = Ok (VObj {[ "x" := VNum (of_Z 22) ]}).
Proof. reflexivity. Qed.

Example array_field :
  parse [ ("array::tags", RawString "a,b,c") ] DEFAULT_OPTIONS
  = Ok (VObj {[ "tags" := VArr [VStr "a"; VStr "b"; VStr "c"] ∅ ]}).
Proof. reflexivity. Qed.

Example array_field_separator :
  parse [ ("array(|)::tags", RawString "a|b|c") ] DEFAULT_OPTIONS
  = Ok (VObj {[ "tags" := VArr [VStr "a"; VStr "b"; VStr "c"] ∅ ]}).
Proof. reflexivity. Qed.

Example repeated_array_field :
  parse [ ("array::tags", RawString "a,b"); ("array::tags", RawString "c,d") ]
    DEFAULT_OPTIONS
  = Ok (VObj {[ "tags" :=
                  VArr [VStr "a"; VStr "b"; VStr "c"; VStr "d"] ∅ ]}).
Proof. reflexivity. Qed.

Example repeated_scalar_field :
  parse [ ("string::x", RawString "A"); ("string::x", RawString "B") ]
    DEFAULT_OPTIONS
  = Ok (VObj {[ "x" := VArr [VStr "A"; VStr "B"] ∅ ]}).
Proof. reflexivity. Qed.

Example list_pairing :
  parse [ ("list::key::env::0", RawString "API_URL");
          ("list::value::env::0", RawString "https://x");
          ("list::key::env::1", RawString "API_TOKEN");
          ("list::value::env::1", RawString "secret") ] DEFAULT_OPTIONS
  = Ok (VObj {[ "env" := VObj (<[ "API_URL" := VStr "https://x" ]>
                                 {[ "API_TOKEN" := VStr "secret" ]}) ]}).
Proof. reflexivity. Qed.

Example list_pairing_empty_key :
  parse [ ("list::key::env::0", RawString "");
          ("list::value::env::0", RawString "v") ] DEFAULT_OPTIONS
  = Ok (VObj ∅).
Proof. reflexivity. Qed.

Example nested_path :
  parse [ ("number::user.age", RawString "30") ] DEFAULT_OPTIONS
  = Ok (VObj {[ "user" := VObj {[ "age" := VNum (of_Z 30) ]} ]}).
Proof. reflexivity. Qed.

Example strict_number :
  parse [ ("number::age", RawString "abc") ] strict_options
  = Throw (Error ("Invalid number: " +:+ quoted "abc")).
Proof. reflexivity. Qed.

Example lenient_number :
  parse [ ("number::age", RawString "abc") ] DEFAULT_OPTIONS
  = Ok (VObj {[ "age" := VStr "abc" ]}).
Proof. reflexivity. Qed.

Example ignoreEmpty_fields :
  parse [ ("string::name", RawString ""); ("array::tags", RawString "a,,b") ]
    ignoreEmpty_options
  = Ok (VObj {[ "tags" := VArr [VStr "a"; VStr "b"] ∅ ]}).
Proof. reflexivity. Qed.

(** A nested field submitted before its parent: the parent is promoted to
    an array on its first submission, since a deep read finds the mapping
    the nested field created. *)
Example parent_after_nested_field :
  parse [ ("user.name", RawString "John"); ("user", RawString "Bob") ]
    DEFAULT_OPTIONS
  = Ok (VObj {[ "user" := VArr [VObj {[ "name" := VStr "John" ]};
                                VStr "Bob"] ∅ ]}).
Proof. reflexivity. Qed.

End SpecExamples.

(** * Further facts about strings *)


Module TrimFacts.
Import JsStringFacts.

Lemma white_space_lower (c : ascii) :
  is_white_space (lower_char c) = is_white_space c.
Proof. destruct c as [[] [] [] [] [] [] [] []]; reflexivity. Qed.

Lemma trimStart_clean (s : string) : starts_clean (trimStart s) = true.
Proof.
  induction s as [|c s IH]; [done |].
  simpl. destruct (is_white_space c) eqn:Hc; [done |]. simpl. by rewrite Hc.
Qed.

Lemma trimStart_id (s : string) : starts_clean s = true → trimStart s = s.
Proof.
  destruct s as [|c s]; [done |]. simpl.
  by destruct (is_white_space c).
Qed.

Lemma trimEnd_clean (s : string) :
  starts_clean s = true → starts_clean (trimEnd s) = true.
Proof.
  destruct s as [|c s]; [done |]. simpl.
  destruct (is_white_space c) eqn:Hc; [done |]. simpl. by rewrite Hc.
Qed.

Lemma trimEnd_idempotent (s : string) : trimEnd (trimEnd s) = trimEnd s.
Proof.
  induction s as [|c s IH]; [done |]. simpl.
  destruct (is_white_space c && is_empty (trimEnd s)) eqn:Hc; [done |].
  simpl. by rewrite IH, Hc.
Qed.

Lemma trim_clean (s : string) : starts_clean (trim s) = true.
Proof. apply trimEnd_clean, trimStart_clean. Qed.

Lemma trim_idempotent (s : string) : trim (trim s) = trim s.
Proof.
  unfold trim at 1.
  rewrite (trimStart_id (trim s)) by apply trim_clean.
  apply trimEnd_idempotent.
Qed.

Lemma trimEnd_empty (s : string) :
  starts_clean s = true → is_empty (trimEnd s) = is_empty s.
Proof.
  destruct s as [|c s]; [done |]. simpl.
  by destruct (is_white_space c).
Qed.

Lemma trimStart_blank (s : string) :
  is_empty (trimStart s) = forallb is_white_space (list_ascii_of_string s).
Proof.
  induction s as [|c s IH]; [done |]. simpl.
  by destruct (is_white_space c).
Qed.

(** A text is blank when all its code units are white space. *)
Lemma trim_blank (s : string) :
  is_empty (trim s) = forallb is_white_space (list_ascii_of_string s).
Proof.
  unfold trim. rewrite trimEnd_empty by apply trimStart_clean.
  apply trimStart_blank.
Qed.

Lemma trimmed_clean (s : string) : trim s = s → starts_clean s = true.
Proof. intros <-. apply trim_clean. Qed.

Lemma trim_nonempty_clean (s : string) :
  s ≠ EmptyString → starts_clean s = true → is_empty (trim s) = false.
Proof.
  intros Hne Hc. unfold trim. rewrite trimStart_id by done.
  rewrite trimEnd_empty by done. by destruct s.
Qed.

Lemma trimStart_lower (s : string) :
  toLowerCase (trimStart s) = trimStart (toLowerCase s).
Proof.
  induction s as [|c s IH]; [done |]. simpl.
  rewrite white_space_lower. by destruct (is_white_space c).
Qed.

Lemma is_empty_lower (s : string) : is_empty (toLowerCase s) = is_empty s.
Proof. by destruct s. Qed.

Lemma trimEnd_lower (s : string) :
  toLowerCase (trimEnd s) = trimEnd (toLowerCase s).
Proof.
  induction s as [|c s IH]; [done |]. simpl.
  rewrite white_space_lower, <- IH, is_empty_lower.
  by destruct (is_white_space c && is_empty (trimEnd s)).
Qed.

Lemma trim_lower (s : string) : toLowerCase (trim s) = trim (toLowerCase s).
Proof. unfold trim. by rewrite trimEnd_lower, trimStart_lower. Qed.

Lemma trimStart_app (s r : string) :
  trimStart (s +:+ r) =
    if is_empty (trimStart s) then trimStart r else trimStart s +:+ r.
Proof.
  induction s as [|c s IH]; [done |]. rewrite app_cons. simpl.
  by destruct (is_white_space c).
Qed.

Lemma trimEnd_blank (r : string) :
  is_empty (trimStart r) = true → trimEnd r = EmptyString.
Proof.
  induction r as [|c r IH]; [done |]. simpl.
  destruct (is_white_space c); [| done]. intros Hr. by rewrite IH.
Qed.

Lemma trimEnd_app (s r : string) :
  is_empty (trimStart r) = true → trimEnd (s +:+ r) = trimEnd s.
Proof.
  intros Hr. induction s as [|c s IH].
  - rewrite app_nil. by apply trimEnd_blank.
  - rewrite app_cons. simpl. by rewrite IH.
Qed.

(** White space around a text does not change what [trim] gives. *)
Lemma trim_padded (l s r : string) :
  is_empty (trim l) = true → is_empty (trim r) = true →
  trim (l +:+ s +:+ r) = trim s.
Proof.
  unfold trim at 1 2. rewrite !trimEnd_empty by apply trimStart_clean.
  intros Hl Hr. unfold trim.
  rewrite trimStart_app, Hl, trimStart_app.
  destruct (is_empty (trimStart s)) eqn:Hs.
  - apply is_empty_true in Hr, Hs. by rewrite Hr, Hs.
  - by apply trimEnd_app.
Qed.

End TrimFacts.

(** * Facts about cuts at a separator *)


Module SplitFacts.
Import JsStringFacts.

Lemma strip_prefix_app (sep b : string) : strip_prefix sep (sep +:+ b) = Some b.
Proof. by apply strip_prefix_Some. Qed.

(** The first occurrence of a separator is where it is written, when the
    text before it does not hold the first code unit of the separator. *)
Lemma break_on_app (c : ascii) (sep a b : string) :
  has_char c a = false →
  break_on (String c sep) (a +:+ String c sep +:+ b) = Some (a, b).
Proof.
  induction a as [|x a IH]; intros Ha.
  - rewrite app_nil, app_cons. cbn [break_on].
    rewrite <- app_cons, strip_prefix_app. done.
  - unfold has_char in Ha. simpl in Ha. apply orb_false_iff in Ha as [Hx Ha].
    rewrite app_cons. cbn [break_on strip_prefix]. rewrite Hx.
    by rewrite IH.
Qed.

Lemma break_on_absent (c : ascii) (sep s : string) :
  has_char c s = false → break_on (String c sep) s = None.
Proof.
  induction s as [|x s IH]; intros Hs; [done |].
  unfold has_char in Hs. simpl in Hs. apply orb_false_iff in Hs as [Hx Hs].
  cbn [break_on strip_prefix]. rewrite Hx. by rewrite IH.
Qed.

(** [break_on] finds an occurrence whenever there is one. *)
Lemma break_on_None (sep s : string) :
  sep ≠ EmptyString → break_on sep s = None → ¬ occurs_in sep s.
Proof.
  intros Hsep Hb (a & b & ->). revert Hb.
  induction a as [|x a IH].
  - rewrite app_nil. destruct sep as [|c sep]; [done |].
    rewrite app_cons. cbn [break_on]. rewrite <- app_cons, strip_prefix_app.
    done.
  - rewrite app_cons. cbn [break_on].
    destruct (strip_prefix sep _); [done |].
    destruct (break_on sep (a +:+ sep +:+ b)) as [[? ?]|]; [done |].
    intros _. by apply IH.
Qed.

Lemma split_absent (sep s : string) :
  sep ≠ EmptyString → ¬ occurs_in sep s → split sep s = [s].
Proof.
  intros Hsep Hs. rewrite split_unfold by done.
  destruct (break_on sep s) as [[a b]|] eqn:Hb; [| done].
  destruct Hs. exists a, b. by apply break_on_Some.
Qed.

Lemma split_first (c : ascii) (sep a b : string) :
  has_char c a = false →
  split (String c sep) (a +:+ String c sep +:+ b) = a :: split (String c sep) b.
Proof.
  intros Ha. rewrite split_unfold by done. by rewrite break_on_app.
Qed.

(** Splitting what [join] made gives the pieces back, when no piece holds
    the first code unit of the separator. *)
Lemma split_join (c : ascii) (sep : string) (l : list string) :
  l ≠ [] → Forall (λ x, has_char c x = false) l →
  split (String c sep) (join (String c sep) l) = l.
Proof.
  induction l as [|a l IH]; [done |]. intros _ Hl.
  apply Forall_cons in Hl as [Ha Hl].
  destruct l as [|b l].
  - simpl. rewrite split_unfold by done. by rewrite break_on_absent.
  - rewrite join_cons by done. rewrite split_first by done.
    by rewrite IH.
Qed.

Lemma break_on_char_None (c : ascii) (s : string) :
  break_on (String c "") s = None → has_char c s = false.
Proof.
  induction s as [|x s IH]; [done |].
  cbn [break_on strip_prefix]. unfold has_char. simpl.
  destruct (Ascii.eqb c x); [done |].
  destruct (break_on (String c "") s) as [[? ?]|]; [done |].
  intros _. by apply IH.
Qed.

Lemma break_on_char_app (c : ascii) (s r a b : string) :
  break_on (String c "") s = Some (a, b) →
  break_on (String c "") (s +:+ r) = Some (a, b +:+ r).
Proof.
  revert a b. induction s as [|x s IH]; intros a b; [done |].
  rewrite app_cons. cbn [break_on strip_prefix].
  destruct (Ascii.eqb c x).
  - by intros [= <- <-].
  - destruct (break_on (String c "") s) as [[a' b']|]; [| done].
    intros [= <- <-]. by rewrite (IH a' b').
Qed.

(** With a separator of one code unit, the split of two texts put
    together around the separator is the two splits put together. *)
Lemma split_app (c : ascii) (p q : string) :
  split (String c "") (p +:+ String c "" +:+ q)
  = split (String c "") p ++ split (String c "") q.
Proof.
  remember (String.length p) as n eqn:Hn. revert p Hn.
  induction n as [n IH] using lt_wf_ind. intros p ->.
  rewrite (split_unfold _ p) by done.
  destruct (break_on (String c "") p) as [[a b]|] eqn:Hb.
  - rewrite split_unfold by done.
    rewrite (break_on_char_app _ _ _ _ _ Hb).
    simpl. f_equal. apply (IH (String.length b)); [| done].
    by apply (break_on_shorter (String c "") p a b).
  - apply break_on_char_None in Hb. by rewrite split_first.
Qed.

Lemma path_parts_app (p q : string) :
  path_parts (p +:+ "." +:+ q) = path_parts p ++ path_parts q.
Proof. unfold path_parts. by rewrite split_app, List.filter_app. Qed.

Lemma path_parts_empty : path_parts "" = [].
Proof. reflexivity. Qed.

End SplitFacts.

(** * Facts about field names *)


Module FieldNameFacts.
Import JsStringFacts SplitFacts.

Lemma letter_not (c x : ascii) :
  is_letter c = true → is_letter x = false → Ascii.eqb x c = false.
Proof.
  intros Hc Hx. destruct (Ascii.eqb_spec x c) as [->|]; [congruence | done].
Qed.

Lemma letters_without (x : ascii) (s : string) :
  is_letter x = false → all_letters s = true → has_char x s = false.
Proof.
  intros Hx. unfold all_letters, has_char.
  induction s as [|c s IH]; [done |]. simpl.
  intros [Hc Hs]%andb_true_iff. rewrite IH by done.
  by rewrite (letter_not c x).
Qed.

Lemma has_char_app (x : ascii) (a b : string) :
  has_char x (a +:+ b) = has_char x a || has_char x b.
Proof.
  unfold has_char. induction a as [|c a IH]; [done |].
  rewrite app_cons. simpl. by rewrite IH, orb_assoc.
Qed.

Lemma span_letters_app (t rest : string) :
  all_letters t = true →
  (match rest with String c _ => is_letter c = false | EmptyString => True end) →
  span_letters (t +:+ rest) = (t, rest).
Proof.
  intros Ht Hrest. unfold all_letters in Ht.
  induction t as [|c t IH].
  - rewrite app_nil. destruct rest as [|c rest]; [done |]. simpl.
    by rewrite Hrest.
  - simpl in Ht. apply andb_true_iff in Ht as [Hc Ht].
    rewrite app_cons. simpl. by rewrite Hc, IH.
Qed.

Lemma parenthesised_rest_app (p : string) :
  has_line_terminator p = false → parenthesised_rest (p +:+ ")") = Some p.
Proof.
  unfold has_line_terminator.
  induction p as [|c p IH]; [done |]. simpl.
  intros [Hc Hp]%orb_false_iff.
  destruct (p +:+ ")") as [|y r] eqn:Hr.
  { destruct p; discriminate. }
  by rewrite Hc, IH.
Qed.

(** The field name cut at its first separator, when the text before it
    holds no colon. *)
Lemma parseFieldName_cut (left k : string) :
  has_char ":" left = false →
  parseFieldName (left +:+ "::" +:+ k) =
    match match_type_token left with
    | None => {| type := "string"; key := left +:+ "::" +:+ k;
                 arraySeparator := None |}
    | Some (m1, opt) =>
        let type := toLowerCase (if is_empty m1 then "string" else m1) in
        if JsString.eqb type "array" then
          {| type := type; key := k; arraySeparator := opt |}
        else {| type := type; key := k; arraySeparator := None |}
    end.
Proof.
  intros Hleft. unfold parseFieldName.
  rewrite (split_first ":" ":" left k) by done.
  pose proof (split_nonempty "::" k ltac:(done)) as Hne.
  destruct (split "::" k) as [|x l] eqn:Hk; [done |].
  cbn [List.length Nat.eqb nth skipn]. rewrite <- Hk.
  by rewrite join_split.
Qed.

Lemma match_letters (t : string) :
  t ≠ EmptyString → all_letters t = true →
  match_type_token t = Some (t, None).
Proof.
  intros Hne Ht. unfold match_type_token.
  pose proof (span_letters_app t "" Ht I) as Hspan.
  replace (t +:+ "") with t in Hspan
    by (clear; induction t as [|c t IH]; [done | by rewrite app_cons, <- IH]).
  rewrite Hspan. by destruct t.
Qed.

Lemma match_payload (t p : string) :
  t ≠ EmptyString → all_letters t = true → has_line_terminator p = false →
  match_type_token (t +:+ "(" +:+ p +:+ ")") = Some (t, Some p).
Proof.
  intros Hne Ht Hp. unfold match_type_token.
  rewrite (span_letters_app t ("(" +:+ p +:+ ")")) by done.
  destruct t as [|c t]; [done |].
  change ("(" +:+ p +:+ ")") with (String "(" (p +:+ ")")).
  cbv beta iota. rewrite eqb_refl.
  by rewrite parenthesised_rest_app.
Qed.

Lemma typed_name (t k : string) :
  t ≠ EmptyString → all_letters t = true →
  parseFieldName (t +:+ "::" +:+ k)
  = {| type := toLowerCase t; key := k; arraySeparator := None |}.
Proof.
  intros Hne Ht.
  rewrite parseFieldName_cut by (by apply letters_without).
  rewrite match_letters by done.
  replace (is_empty t) with false by (by destruct t).
  cbv zeta. by destruct (JsString.eqb (toLowerCase t) "array").
Qed.

End FieldNameFacts.

Module ArrayFacts.
Import JsStringFacts TrimFacts SplitFacts.

Lemma trim_unit (c : ascii) :
  trim (String c "") = if is_white_space c then "" else String c "".
Proof.
  unfold trim. simpl. destruct (is_white_space c) eqn:Hc; [done |].
  simpl. by rewrite Hc.
Qed.

Lemma tokens_of_units (s : string) :
  List.filter (λ x, Nat.ltb 0 (String.length x)) (map trim (code_units s))
  = map (λ c, String c "")
      (List.filter (λ c, negb (is_white_space c)) (list_ascii_of_string s)).
Proof.
  induction s as [|c s IH]; [done |].
  cbn [code_units map list_ascii_of_string List.filter].
  rewrite trim_unit, IH. by destruct (is_white_space c).
Qed.

Lemma filter_all {A : Type} (f : A → bool) (l : list A) :
  Forall (λ x, f x = true) l → List.filter f l = l.
Proof.
  induction 1 as [|x l Hx _ IH]; [done |]. simpl. by rewrite Hx, IH.
Qed.

Lemma filter_none {A : Type} (f : A → bool) (l : list A) :
  forallb f l = true → List.filter (λ x, negb (f x)) l = [].
Proof.
  induction l as [|x l IH]; [done |]. simpl.
  destruct (f x); [| done]. by apply IH.
Qed.

Lemma map_id_Forall {A : Type} (f : A → A) (l : list A) :
  Forall (λ x, f x = x) l → map f l = l.
Proof.
  induction 1 as [|x l Hx _ IH]; [done |]. simpl. by rewrite Hx, IH.
Qed.

Lemma join_starts (sep a : string) (l : list string) :
  a ≠ "" → starts_clean a = true →
  join sep (a :: l) ≠ "" ∧ starts_clean (join sep (a :: l)) = true.
Proof.
  intros Hne Hc. destruct a as [|c a]; [done |].
  destruct l as [|b l]; [done |].
  rewrite join_cons by done. rewrite app_cons. done.
Qed.

End ArrayFacts.

Module ListNameFacts.
Import JsStringFacts SplitFacts.

Lemma removelast_snoc {A : Type} (l : list A) (x : A) :
  removelast (l ++ [x]) = l.
Proof. apply removelast_last. Qed.

Lemma join_nonempty (sep : string) (l : list string) :
  join sep l ≠ "" → l ≠ [].
Proof. by destruct l. Qed.

(** What [parseListEntry] makes of a name written from its pieces. *)
Lemma accepted (head v : string) (names : list string) (idx : string)
    (rawVal : raw_value) (opts : ParseOptions) :
  Forall (λ x, has_char ":" x = false) (head :: v :: names ++ [idx]) →
  toLowerCase v = "key" ∨ toLowerCase v = "value" →
  join "::" names ≠ "" → idx ≠ "" →
  parseListEntry (join "::" (head :: v :: names ++ [idx])) rawVal opts
  = Ok (Some {| variant := if JsString.eqb (toLowerCase v) "key"
                           then KeyVariant else ValueVariant;
                name := join "::" names;
                index := idx;
                entry_value := to_String rawVal |}).
Proof.
  intros Hfree Hv Hname Hidx. unfold parseListEntry.
  rewrite (split_join ":" ":") by done.
  pose proof (join_nonempty _ _ Hname) as Hne.
  destruct names as [|n names]; [done |].
  replace (Nat.ltb _ 4) with false
    by (symmetry; apply Nat.ltb_ge; simpl; rewrite length_app; simpl; lia).
  cbn [nth skipn].
  replace (negb (JsString.eqb (toLowerCase v) "key")
           && negb (JsString.eqb (toLowerCase v) "value")) with false
    by (by destruct Hv as [-> | ->]).
  change (drop 0 ((n :: names) ++ [idx])) with ((n :: names) ++ [idx]).
  change (head :: v :: (n :: names) ++ [idx])
    with ((head :: v :: n :: names) ++ [idx]).
  rewrite List.last_last, removelast_snoc.
  replace (is_empty (join "::" (n :: names)) || is_empty idx) with false.
  - done.
  - symmetry. apply orb_false_iff. split.
    + by destruct (join "::" (n :: names)).
    + by destruct idx.
Qed.

End ListNameFacts.

(** * Further facts about the deep read and the deep write *)


Module OverwriteFacts.
Import PropertyFacts DeepFacts.

Lemma firstn_exact (A B : list value) :
  firstn (List.length A) (A ++ B) = A.
Proof.
  rewrite firstn_app, Nat.sub_diag, firstn_all. simpl. apply app_nil_r.
Qed.

Lemma skipn_exact (A B : list value) (v : value) :
  skipn (S (List.length A)) (A ++ v :: B) = B.
Proof. induction A as [|x A IH]; [done | exact IH]. Qed.

Lemma resize_exact (A B : list value) :
  firstn (List.length A) (resize (A ++ B) (List.length A)) = A.
Proof.
  unfold resize. rewrite firstn_exact.
  replace (List.length A - List.length (A ++ B)) with 0
    by (rewrite length_app; lia).
  simpl. rewrite app_nil_r. apply firstn_all.
Qed.

Lemma set_elem_cut (elems : list value) (i : nat) :
  List.length (firstn i (resize elems i)) = i.
Proof. rewrite length_firstn, length_resize. lia. Qed.

Lemma set_elem_shape (A B : list value) (v w : value) (i : nat) :
  List.length A = i →
  firstn i (resize (A ++ v :: B) i) ++ w :: skipn (S i) (A ++ v :: B)
  = A ++ w :: B.
Proof. intros <-. by rewrite resize_exact, skipn_exact. Qed.

Lemma set_elem_twice (elems : list value) (i : nat) (v w : value) :
  set_elem (set_elem elems i v) i w = set_elem elems i w.
Proof.
  unfold set_elem. apply set_elem_shape, set_elem_cut.
Qed.

Lemma with_child_twice (cur : value) (p : string) (c1 c2 : value) :
  with_child (with_child cur p c1) p c2 = with_child cur p c2.
Proof.
  destruct cur; simpl; try done; try (by rewrite insert_insert_eq).
  destruct (array_index p) as [i|] eqn:Hi; simpl; rewrite Hi.
  - by rewrite list_insert_insert_eq.
  - by rewrite insert_insert_eq.
Qed.

Lemma put_twice_plain (cur : value) (p : string) (v w cur1 : value) :
  plain_for cur p = true → put cur p v = Ok cur1 →
  put cur1 p w = put cur p w.
Proof.
  destruct cur; simpl; try done.
  - intros _ [= <-]. simpl. by rewrite insert_insert_eq.
  - destruct (array_index p) as [i|] eqn:Hi; [| done].
    intros _ [= <-]. simpl. by rewrite Hi, set_elem_twice.
Qed.

(** Two deep writes along one plain walk leave what the second alone
    leaves. *)
Lemma set_path_twice_plain (parts : list string) (cur v w cur1 : value) :
  plain_along cur parts = true → set_path cur parts v = Ok cur1 →
  set_path cur1 parts w = set_path cur parts w.
Proof.
  revert cur cur1. induction parts as [|p rest IH]; intros cur cur1.
  - by intros _ [= <-].
  - intros [Hp Hrest]%andb_true_iff Hset. destruct rest as [|q rest].
    + by apply (put_twice_plain cur p v).
    + rewrite set_path_step in Hset by done.
      apply bind_Ok in Hset as (cur0 & H0 & Hset).
      apply bind_Ok in Hset as (child & Hchild & [= <-]).
      pose proof (ensured_container _ _ _ H0) as Hc.
      destruct (ensured _ _ _ H0) as (_ & _ & Hslot).
      rewrite <- Hslot in Hrest.
      destruct (set_path_kind (q :: rest) _ _ _ ltac:(done) Hchild)
        as [Hk Hprim].
      rewrite !set_path_step by done. rewrite H0.
      rewrite get_with_child by done.
      replace (is_container child) with true
        by (symmetry; apply container_kind; congruence).
      cbn [negb mbind result_bind].
      rewrite get_with_child by done.
      rewrite (IH (get cur0 p) child) by done.
      destruct (set_path (get cur0 p) (q :: rest) w); simpl; [| done].
      by rewrite with_child_twice.
Qed.

End OverwriteFacts.

Module CleanFacts.

Lemma get_clean (obj : value) (p : string) :
  isArray obj = false → get (clean obj) p = clean (get obj p).
Proof.
  destruct obj; try done; intros _; simpl; unfold lookup_own;
    rewrite lookup_fmap; by destruct (_ !! p).
Qed.

Lemma clean_container (obj : value) :
  is_container (clean obj) = is_container obj.
Proof. by destruct obj. Qed.

Lemma clean_isArray (obj : value) : isArray (clean obj) = isArray obj.
Proof. by destruct obj. Qed.

End CleanFacts.

(** * Further properties of the code *)

(** ** [parseFieldName] *)

(** X1.  A name written as a type token of letters, the separator [::]
    and a key is cut there: the type is the token in lower case, the key
    is everything after the first separator, later separators included,
    and there is no array separator. *)
Theorem typed_field_name (t k : string) :
  t ≠ "" → all_letters t = true →
  parseFieldName (t +:+ "::" +:+ k)
  = {| type := toLowerCase t; key := k; arraySeparator := None |}.
Proof. apply FieldNameFacts.typed_name. Qed.

Lemma typed_field_name_witness :
  parseFieldName "Number::a::b"
  = {| type := "number"; key := "a::b"; arraySeparator := None |}.
Proof. apply (typed_field_name "Number" "a::b"); [done | reflexivity]. Defined.

(** X2.  A parenthesised payload after the type token is the separator of
    an array field, the empty payload included; for any other type it is
    dropped.  The payload may hold anything but a colon or a line
    terminator. *)
Theorem field_name_payload (t p k : string) :
  t ≠ "" → all_letters t = true →
  has_char ":" p = false → has_line_terminator p = false →
  parseFieldName (t +:+ "(" +:+ p +:+ ")::" +:+ k)
  = {| type := toLowerCase t; key := k;
       arraySeparator := if JsString.eqb (toLowerCase t) "array" then Some p
                         else None |}.
Proof.
  intros Hne Ht Hcolon Hline.
  replace (t +:+ "(" +:+ p +:+ ")::" +:+ k)
    with ((t +:+ "(" +:+ p +:+ ")") +:+ "::" +:+ k)
    by (rewrite !JsStringFacts.app_assoc; reflexivity).
  rewrite FieldNameFacts.parseFieldName_cut.
  - rewrite FieldNameFacts.match_payload by done.
    replace (is_empty t) with false by (by destruct t).
    cbv zeta. by destruct (JsString.eqb (toLowerCase t) "array").
  - rewrite !FieldNameFacts.has_char_app.
    rewrite (FieldNameFacts.letters_without ":" t) by done.
    by rewrite Hcolon.
Qed.

Lemma field_name_payload_witness :
  parseFieldName "Array(|)::tags"
  = {| type := "array"; key := "tags"; arraySeparator := Some "|" |}.
Proof.
  apply (field_name_payload "Array" "|" "tags"); [done | reflexivity ..].
Defined.

(** X3.  A name in which [::] does not occur is a string field whose key
    is the whole name. *)
Theorem untyped_field_name (raw : string) :
  ¬ occurs_in "::" raw →
  parseFieldName raw
  = {| type := "string"; key := raw; arraySeparator := None |}.
Proof.
  intros Hraw. unfold parseFieldName.
  by rewrite SplitFacts.split_absent.
Qed.

Lemma untyped_field_name_witness :
  parseFieldName "user.name:x"
  = {| type := "string"; key := "user.name:x"; arraySeparator := None |}.
Proof.
  apply (untyped_field_name "user.name:x").
  apply SplitFacts.break_on_None; [done | reflexivity].
Defined.

(** X4.  When the text before the first [::] does not match the pattern
    of a type token, the field is a string field and its key is the whole
    raw name, the prefix and the separator included. *)
Theorem field_name_without_type_token (left k : string) :
  has_char ":" left = false → match_type_token left = None →
  parseFieldName (left +:+ "::" +:+ k)
  = {| type := "string"; key := left +:+ "::" +:+ k; arraySeparator := None |}.
Proof.
  intros Hleft Hm. rewrite FieldNameFacts.parseFieldName_cut by done.
  by rewrite Hm.
Qed.

Lemma field_name_without_type_token_witness :
  parseFieldName "user-id::x"
  = {| type := "string"; key := "user-id::x"; arraySeparator := None |}.
Proof.
  apply (field_name_without_type_token "user-id" "x"); reflexivity.
Defined.

(** ** [splitArrayValue] and [parseBoolean] *)

(** X5.  No element of a split array value is empty, and none has white
    space at either end. *)
Theorem splitArrayValue_tokens (value sep : string) :
  Forall (λ x, x ≠ "" ∧ trim x = x) (splitArrayValue value sep).
Proof.
  unfold splitArrayValue.
  destruct (is_empty (trim value)); [by apply Forall_nil |].
  apply List.Forall_forall. intros x [Hin Hlen]%List.filter_In.
  apply in_map_iff in Hin as (y & <- & _). split.
  - intros Hx. by rewrite Hx in Hlen.
  - apply TrimFacts.trim_idempotent.
Qed.

(** X6.  Splitting gives back the elements that were joined with the
    separator, when each of them is not empty, has no white space at
    either end and does not hold the first code unit of the separator. *)
Theorem splitArrayValue_join (c : ascii) (sep : string) (l : list string) :
  Forall (λ x, x ≠ "" ∧ trim x = x ∧ has_char c x = false) l →
  splitArrayValue (join (String c sep) l) (String c sep) = l.
Proof.
  intros Hl. unfold splitArrayValue.
  destruct l as [|a l]; [done |].
  assert (Ha : a ≠ "" ∧ starts_clean a = true).
  { apply Forall_cons in Hl as [(Hne & Htrim & _) _].
    split; [done | by apply TrimFacts.trimmed_clean]. }
  destruct Ha as [Hne Hclean].
  destruct (ArrayFacts.join_starts (String c sep) a l Hne Hclean)
    as [Hjoin Hstart].
  rewrite TrimFacts.trim_nonempty_clean by done.
  rewrite SplitFacts.split_join; [| done |].
  - rewrite ArrayFacts.map_id_Forall.
    + apply ArrayFacts.filter_all.
      eapply Forall_impl; [exact Hl |]. intros x (Hx & _ & _).
      by destruct x.
    + eapply Forall_impl; [exact Hl |]. by intros x (_ & Hx & _).
  - eapply Forall_impl; [exact Hl |]. by intros x (_ & _ & Hx).
Qed.

Lemma splitArrayValue_join_witness :
  splitArrayValue "a b|c" "|" = ["a b"; "c"].
Proof.
  apply (splitArrayValue_join "|" "" ["a b"; "c"]).
  apply Forall_cons; split; [split_and!; [done | reflexivity ..] |].
  apply Forall_cons; split; [split_and!; [done | reflexivity ..] |].
  by apply Forall_nil.
Defined.

(** X7.  With the empty separator, as the payload of [array()::name]
    gives it, the value is split into its code units, and those that are
    white space are dropped. *)
Theorem splitArrayValue_empty_separator (value : string) :
  splitArrayValue value ""
  = map (λ c, String c "")
      (List.filter (λ c, negb (is_white_space c)) (list_ascii_of_string value)).
Proof.
  unfold splitArrayValue. rewrite TrimFacts.trim_blank.
  change (split "" value) with (code_units value).
  rewrite ArrayFacts.tokens_of_units.
  destruct (forallb is_white_space (list_ascii_of_string value)) eqn:Hb;
    [| done].
  by rewrite ArrayFacts.filter_none.
Qed.

(** X8.  [parseBoolean] ignores the case of the letters and the white
    space around the text: two texts equal up to case give the same
    result, and so does a text with white space added at its ends. *)
Theorem parseBoolean_insensitive (value : string) :
  (∀ other, toLowerCase other = toLowerCase value →
     parseBoolean other = parseBoolean value)
  ∧ (∀ l r, is_empty (trim l) = true → is_empty (trim r) = true →
       parseBoolean (l +:+ value +:+ r) = parseBoolean value).
Proof.
  split.
  - intros other Heq. unfold parseBoolean.
    by rewrite !TrimFacts.trim_lower, Heq.
  - intros l r Hl Hr. unfold parseBoolean.
    by rewrite TrimFacts.trim_padded.
Qed.

(** ** [parseListEntry] and [applyListEntries] *)

(** X9.  A list field name written from pieces without a colon (any
    first piece, a variant that is [key] or [value] up to case, one or
    more pieces of group name, an index) is accepted in both modes: the
    group name is the pieces between the variant and the index joined by
    [::], the index is the last piece, and the value is the text of the
    raw value. *)
Theorem parseListEntry_accepts (head v : string) (names : list string)
    (idx : string) (rawVal : raw_value) (opts : ParseOptions) :
  Forall (λ x, has_char ":" x = false) (head :: v :: names ++ [idx]) →
  toLowerCase v = "key" ∨ toLowerCase v = "value" →
  join "::" names ≠ "" → idx ≠ "" →
  parseListEntry (join "::" (head :: v :: names ++ [idx])) rawVal opts
  = Ok (Some {| variant := if JsString.eqb (toLowerCase v) "key"
                           then KeyVariant else ValueVariant;
                name := join "::" names;
                index := idx;
                entry_value := to_String rawVal |}).
Proof. apply ListNameFacts.accepted. Qed.

Lemma parseListEntry_accepts_witness :
  parseListEntry "list::Key::env::prod::0" (RawString "HOST")
    Sample.strict_options
  = Ok (Some {| variant := KeyVariant; name := "env::prod"; index := "0";
                entry_value := "HOST" |}).
Proof.
  apply (parseListEntry_accepts "list" "Key" ["env"; "prod"] "0"
           (RawString "HOST") Sample.strict_options);
    [| by left | done | done].
  repeat (apply List.Forall_cons; [reflexivity |]). apply List.Forall_nil.
Defined.

(** X10.  When no entry is a key-entry with a text that is not blank,
    [applyListEntries] leaves the target as it is: value-entries alone
    write nothing. *)
Theorem applyListEntries_without_contribution (entries : list ListEntry)
    (target : value) :
  Forall (λ entry, contributes entry = false) entries →
  applyListEntries entries target = Ok target.
Proof.
  intros Hall. unfold applyListEntries.
  destruct (Nat.eqb (List.length entries) 0); [done |].
  generalize (build_valueMap (List.filter is_value entries)). intros valueMap.
  induction Hall as [|entry entries Hentry _ IH]; [done |].
  cbn [List.filter]. destruct (is_key entry) eqn:Hkey; [| exact IH].
  cbn [for_each]. rewrite apply_key_set_pair.
  unfold contributes in Hentry. rewrite Hkey in Hentry. simpl in Hentry.
  apply negb_false_iff in Hentry. rewrite Hentry. exact IH.
Qed.

Lemma applyListEntries_without_contribution_witness :
  applyListEntries
    [ {| variant := ValueVariant; name := "env"; index := "0";
         entry_value := "v" |};
      {| variant := KeyVariant; name := "env"; index := "0";
         entry_value := "  " |} ]
    (VObj ∅)
  = Ok (VObj ∅).
Proof.
  apply applyListEntries_without_contribution.
  repeat (apply List.Forall_cons; [reflexivity |]). apply List.Forall_nil.
Defined.

(** ** [setDeep] and [getDeep] *)

(** X11.  A deep write changes nothing of what a deep read finds along a
    path that parts from the written path at a mapping: after a common
    prefix, the two paths go on with different segments.  (Both walks make
    plain accesses only.) *)
Theorem setDeep_frame (obj : value) (path other : string) (v obj' : value)
    (pre : list string) (a b : string) (ps qs : list string) :
  path_parts path = pre ++ a :: ps → path_parts other = pre ++ b :: qs →
  a ≠ b → kind_of (get_path obj pre) ≠ Array →
  plain_along obj (path_parts path) = true →
  plain_along obj (path_parts other) = true →
  setDeep obj path v = Ok obj' →
  getDeep obj' other = getDeep obj other.
Proof.
  intros Hpath Hother Hne Hk _ _ Hset. unfold getDeep. rewrite Hother.
  apply FrameFacts.set_path_frame with (a := a) (ps := ps) (v := v);
    [done | done |].
  unfold setDeep in Hset. rewrite Hpath in Hset.
  by destruct pre.
Qed.

Lemma setDeep_frame_witness :
  getDeep (VObj {[ "user" := VObj {[ "name" := VStr "n"; "age" := VStr "3" ]} ]})
    "user.age"
  = getDeep (VObj {[ "user" := VObj {[ "age" := VStr "3" ]} ]}) "user.age".
Proof.
  apply (setDeep_frame (VObj {[ "user" := VObj {[ "age" := VStr "3" ]} ]})
           "user.name" "user.age" (VStr "n") _ ["user"] "name" "age" [] []);
    [reflexivity | reflexivity | done | done | reflexivity | reflexivity
    | by vm_compute].
Defined.

(** X12.  A deep read along two paths put together with a dot is the deep
    read along the second path of what the deep read along the first
    finds. *)
Theorem getDeep_compose (obj : value) (p q : string) :
  getDeep obj (p +:+ "." +:+ q) = getDeep (getDeep obj p) q.
Proof.
  unfold getDeep. rewrite SplitFacts.path_parts_app.
  apply FrameFacts.get_path_app.
Qed.

(** X13.  Empty segments do not count: a doubled dot, a leading dot and
    a trailing dot change neither what a deep write does nor what a deep
    read finds. *)
Theorem empty_segments_ignored (obj : value) (p q : string) (v : value) :
  (setDeep obj (p +:+ ".." +:+ q) v = setDeep obj (p +:+ "." +:+ q) v
   ∧ getDeep obj (p +:+ ".." +:+ q) = getDeep obj (p +:+ "." +:+ q))
  ∧ (setDeep obj ("." +:+ p) v = setDeep obj p v
     ∧ getDeep obj ("." +:+ p) = getDeep obj p)
  ∧ (setDeep obj (p +:+ ".") v = setDeep obj p v
     ∧ getDeep obj (p +:+ ".") = getDeep obj p).
Proof.
  assert (Hlead : ∀ s, path_parts ("." +:+ s) = path_parts s).
  { intros s. apply (SplitFacts.path_parts_app "" s). }
  assert (Htrail : ∀ s, path_parts (s +:+ ".") = path_parts s).
  { intros s. change (s +:+ ".") with (s +:+ "." +:+ "").
    rewrite (SplitFacts.path_parts_app s ""). apply app_nil_r. }
  assert (Hdouble : path_parts (p +:+ ".." +:+ q) = path_parts (p +:+ "." +:+ q)).
  { change (p +:+ ".." +:+ q) with (p +:+ "." +:+ ("." +:+ q)).
    by rewrite !SplitFacts.path_parts_app, Hlead. }
  unfold setDeep, getDeep. by rewrite Hlead, Htrail, Hdouble.
Qed.

(** X14.  The last write wins: after a deep write whose walk makes plain
    accesses only, a second deep write at the same path gives what it
    gives on the tree as it was before the first. *)
Theorem setDeep_last_write_wins (obj : value) (path : string)
    (v w obj1 : value) :
  plain_along obj (path_parts path) = true → setDeep obj path v = Ok obj1 →
  setDeep obj1 path w = setDeep obj path w.
Proof.
  unfold setDeep. intros Hplain.
  destruct (path_parts path) as [|p rest] eqn:Hparts.
  - by intros [= <-].
  - cbn [List.length Nat.eqb]. by apply OverwriteFacts.set_path_twice_plain.
Qed.

Lemma setDeep_last_write_wins_witness :
  setDeep (VObj {[ "a" := VArr [VStr "v"] ∅ ]}) "a.0" (VStr "w")
  = setDeep (VObj {[ "a" := VArr [] ∅ ]}) "a.0" (VStr "w").
Proof.
  apply (setDeep_last_write_wins (VObj {[ "a" := VArr [] ∅ ]}) "a.0"
           (VStr "v") (VStr "w")).
  - reflexivity.
  - by vm_compute.
Defined.

(** ** The cleanup of [ignoreEmpty] *)

(** X15.  After the cleanup, an array reached along a path that goes
    through no other array holds no empty string, no null and no
    undefined element. *)
Theorem clean_leaves_no_empty_element (obj : value) (parts : list string) :
  (∀ pre rest, parts = pre ++ rest → rest ≠ [] →
     isArray (get_path (clean obj) pre) = false) →
  Forall (λ x, isEmptyValue x = false) (elements (get_path (clean obj) parts)).
Proof.
  revert obj. induction parts as [|p parts IH]; intros obj Hpath.
  - simpl. destruct obj; try (by apply Forall_nil).
    simpl. apply List.Forall_forall. intros x [_ Hx]%List.filter_In.
    by apply negb_true_iff.
  - pose proof (Hpath [] (p :: parts) eq_refl ltac:(done)) as Harr.
    simpl in Harr. rewrite CleanFacts.clean_isArray in Harr.
    destruct (is_container (clean obj)) eqn:Hc.
    + rewrite DeepFacts.get_path_step by done.
      rewrite CleanFacts.get_clean by done.
      apply IH. intros pre rest -> Hrest.
      specialize (Hpath (p :: pre) rest eq_refl Hrest).
      rewrite DeepFacts.get_path_step in Hpath by done.
      by rewrite CleanFacts.get_clean in Hpath.
    + rewrite DeepFacts.get_path_primitive by done. by apply Forall_nil.
Qed.

Lemma clean_leaves_no_empty_element_witness :
  Forall (λ x, isEmptyValue x = false)
    (elements
       (get_path
          (clean (VObj {[ "tags" := VArr [VStr ""; VStr "a"; VNull] ∅ ]}))
          ["tags"])).
Proof.
  apply (clean_leaves_no_empty_element
           (VObj {[ "tags" := VArr [VStr ""; VStr "a"; VNull] ∅ ]}) ["tags"]).
  intros [|p pre] rest Heq Hrest; [reflexivity |].
  injection Heq as -> Heq. by destruct pre, rest.
Defined.

(** ** [castValue] and [parseTypedFormData] *)

Section Coverage.

Variable Date_parse : string → option Z.
Variable JSON_parse : string → option value.

Local Abbreviation castValue := (castValue Date_parse JSON_parse).
Local Abbreviation parse_entry := (parse_entry Date_parse JSON_parse).
Local Abbreviation parseTypedFormData :=
  (parseTypedFormData Date_parse JSON_parse).
Local Abbreviation cast_failure := (cast_failure Date_parse JSON_parse).
Local Abbreviation own_error := (own_error Date_parse JSON_parse).
Local Abbreviation plain_run := (plain_run Date_parse JSON_parse).

Lemma castValue_strict_ok (type raw : string) (opts : ParseOptions)
    (sep : option string) (v : value) :
  castValue type raw (with_strict true opts) sep = Ok v →
  castValue type raw (with_strict false opts) sep = Ok v.
Proof.
  unfold castValue. cbn [strict with_strict defaultArraySeparator].
  repeat match goal with
         | |- context [if ?b then _ else _] => destruct b
         | |- context [match ?o with Some _ => _ | None => _ end] => destruct o
         end; done.
Qed.

Lemma parseListEntry_strict_ok (rawName : string) (rawVal : raw_value)
    (opts : ParseOptions) (r : option ListEntry) :
  parseListEntry rawName rawVal (with_strict true opts) = Ok r →
  parseListEntry rawName rawVal (with_strict false opts) = Ok r.
Proof.
  unfold parseListEntry. cbn [strict with_strict].
  repeat match goal with
         | |- context [if ?b then _ else _] => destruct b
         end; done.
Qed.

Lemma parse_entry_strict_ok (opts : ParseOptions) (st st' : state)
    (entry : string * raw_value) :
  parse_entry (with_strict true opts) st entry = Ok st' →
  parse_entry (with_strict false opts) st entry = Ok st'.
Proof.
  destruct st as [out listEntries], entry as [rawName rawVal].
  unfold parse_entry. cbn [ignoreEmpty with_strict].
  destruct (JsString.eqb (type (parseFieldName rawName)) "list").
  { intros H. apply DeepFacts.bind_Ok in H as (r & Hr & H).
    by rewrite (parseListEntry_strict_ok _ _ _ _ Hr). }
  assert (Hbody : ∀ k : value → result state,
    (parsed ← castValue (type (parseFieldName rawName)) (to_String rawVal)
                (with_strict true opts)
                (arraySeparator (parseFieldName rawName)); k parsed) = Ok st' →
    (parsed ← castValue (type (parseFieldName rawName)) (to_String rawVal)
                (with_strict false opts)
                (arraySeparator (parseFieldName rawName)); k parsed) = Ok st').
  { intros k H. apply DeepFacts.bind_Ok in H as (parsed & Hc & H).
    by rewrite (castValue_strict_ok _ _ _ _ _ Hc). }
  destruct rawVal; [| done |];
    (destruct (ignoreEmpty opts && _); [done | apply Hbody]).
Qed.

Lemma loop_strict_ok (opts : ParseOptions)
    (entries : list (string * raw_value)) (st st' : state) :
  for_each (parse_entry (with_strict true opts)) st entries = Ok st' →
  for_each (parse_entry (with_strict false opts)) st entries = Ok st'.
Proof.
  revert st. induction entries as [|entry entries IH]; intros st; [done |].
  simpl. intros H. apply DeepFacts.bind_Ok in H as (st1 & H1 & H).
  rewrite (parse_entry_strict_ok _ _ _ _ H1). simpl. by apply IH.
Qed.

Lemma plain_turn_field (out : value) (listEntries : list ListEntry)
    (rawName : string) (rawVal : raw_value) :
  type (parseFieldName rawName) ≠ "list" →
  plain_turn (out, listEntries) (rawName, rawVal) = true →
  plain_along out (path_parts (key (parseFieldName rawName))) = true.
Proof.
  intros Hlist%JsStringFacts.eqb_false. unfold plain_turn. cbn [fst snd].
  by rewrite Hlist.
Qed.

Lemma assign_step_plain (opts : ParseOptions) (out : value)
    (listEntries : list ListEntry) (rawName s : string) (parsed : value) :
  let field := parseFieldName rawName in
  type field ≠ "list" → ignoreEmpty opts = false →
  path_parts (key field) ≠ [] →
  plain_along out (path_parts (key field)) = true →
  castValue (type field) s opts (arraySeparator field) = Ok parsed →
  ∃ out', parse_entry opts (out, listEntries) (rawName, RawString s)
          = Ok (out', listEntries)
          ∧ getDeep out' (key field)
            = merged_value (JsString.eqb (type field) "array")
                (getDeep out (key field)) parsed.
Proof.
  intros field Htype Hskip Hparts Hplain Hcast.
  rewrite parse_entry_assign by done. fold field.
  rewrite Hskip. cbn [andb to_String]. rewrite Hcast.
  cbn [mbind result_bind].
  destruct (PlainFacts.setDeep_plain out (key field)
              (merged_value (JsString.eqb (type field) "array")
                 (getDeep out (key field)) parsed) Hplain)
    as (out' & -> & _ & Hget).
  exists out'. split; [done | by apply Hget].
Qed.

Lemma collect_rest_plain (opts : ParseOptions) (rawName : string)
    (vals : list string) (casts : list value) (held : list value)
    (out : value) (listEntries : list ListEntry) :
  let field := parseFieldName rawName in
  type field ≠ "list" → type field ≠ "array" → ignoreEmpty opts = false →
  path_parts (key field) ≠ [] →
  Forall2 (λ s c, castValue (type field) s opts (arraySeparator field) = Ok c)
    vals casts →
  plain_loop plain_turn (parse_entry opts) (out, listEntries)
    (submissions rawName vals) = true →
  getDeep out (key field) = VArr held ∅ →
  ∃ out', for_each (parse_entry opts) (out, listEntries)
            (submissions rawName vals) = Ok (out', listEntries)
          ∧ getDeep out' (key field) = VArr (held ++ casts) ∅.
Proof.
  intros field Hlist Harr Hskip Hparts Hcasts. revert held out.
  induction Hcasts as [|s c vals casts Hc _ IH]; intros held out Hplain Hget.
  - exists out. by rewrite app_nil_r.
  - cbn [submissions map] in Hplain.
    assert (Hturn : plain_along out (path_parts (key field)) = true).
    { apply andb_true_iff in Hplain as [Hturn _].
      by apply (plain_turn_field out listEntries rawName (RawString s)). }
    destruct (assign_step_plain opts out listEntries rawName s c Hlist Hskip
                Hparts Hturn Hc) as (out1 & Hstep & Hget1).
    destruct (LoopFacts.plain_loop_step _ _ _ _ _ _ Hplain Hstep) as [_ Hrest].
    fold field in Hget1. rewrite Hget in Hget1.
    apply JsStringFacts.eqb_false in Harr. rewrite Harr in Hget1.
    simpl in Hget1.
    destruct (IH (held ++ [c]) out1 Hrest Hget1) as (out' & Hloop & Hget').
    exists out'. cbn [submissions map for_each]. rewrite Hstep.
    cbn [mbind result_bind]. split; [exact Hloop |].
    by rewrite Hget', <- List.app_assoc.
Qed.

Lemma collect_arrays_plain (opts : ParseOptions) (rawName : string)
    (vals : list string) (held : list value)
    (out : value) (listEntries : list ListEntry) :
  let field := parseFieldName rawName in
  let sep := default (defaultArraySeparator opts) (arraySeparator field) in
  type field = "array" → ignoreEmpty opts = false →
  path_parts (key field) ≠ [] →
  plain_loop plain_turn (parse_entry opts) (out, listEntries)
    (submissions rawName vals) = true →
  (getDeep out (key field) = VArr held ∅
   ∨ (getDeep out (key field) = VUndef ∧ held = [])) →
  ∃ out', for_each (parse_entry opts) (out, listEntries)
            (submissions rawName vals) = Ok (out', listEntries)
          ∧ (vals ≠ [] →
             getDeep out' (key field)
             = VArr (held ++ map VStr
                       (concat (map (λ s, splitArrayValue s sep) vals))) ∅).
Proof.
  intros field sep Harr Hskip Hparts. revert held out.
  induction vals as [|s vals IH]; intros held out Hplain Hget.
  - exists out. by split.
  - assert (Hc : castValue (type field) s opts (arraySeparator field)
                 = Ok (string_array (splitArrayValue s sep))).
    { rewrite Harr. unfold castValue. cbn. subst sep.
      by destruct (arraySeparator field). }
    assert (Hlist : type field ≠ "list") by (by rewrite Harr).
    cbn [submissions map] in Hplain.
    assert (Hturn : plain_along out (path_parts (key field)) = true).
    { apply andb_true_iff in Hplain as [Hturn _].
      by apply (plain_turn_field out listEntries rawName (RawString s)). }
    destruct (assign_step_plain opts out listEntries rawName s _ Hlist Hskip
                Hparts Hturn Hc) as (out1 & Hstep & Hget1).
    destruct (LoopFacts.plain_loop_step _ _ _ _ _ _ Hplain Hstep) as [_ Hrest].
    fold field in Hget1. rewrite Harr in Hget1.
    assert (Hget1' : getDeep out1 (key field)
                     = VArr (held ++ map VStr (splitArrayValue s sep)) ∅).
    { rewrite Hget1. destruct Hget as [-> | [-> ->]]; done. }
    destruct (IH _ out1 Hrest (or_introl Hget1')) as (out' & Hloop & Hget').
    exists out'. cbn [submissions map for_each]. rewrite Hstep.
    cbn [mbind result_bind]. split; [exact Hloop |].
    intros _. cbn [concat]. rewrite map_app, List.app_assoc.
    destruct vals as [|s' vals].
    + injection Hloop as <-. simpl. by rewrite app_nil_r.
    + by apply Hget'.
Qed.

Lemma setDeep_root_frame (out : value) (path : string) (v out' : value)
    (a : string) :
  kind_of out = Mapping → addresses_other a path →
  setDeep out path v = Ok out' →
  get out' a = get out a ∧ kind_of out' = Mapping.
Proof.
  intros Hk (b & Hb & Hne). unfold first_segment in Hb. unfold setDeep.
  destruct (path_parts path) as [|b' ps] eqn:Hparts; [done |].
  injection Hb as ->. cbn [List.length Nat.eqb]. intros Hset.
  destruct (DeepFacts.set_path_kind (b :: ps) _ _ _ ltac:(done) Hset)
    as [Hk' _].
  split; [| congruence].
  pose proof (FrameFacts.set_path_frame [] b a ps [] out v out' Hne
                ltac:(simpl; by rewrite Hk) Hset) as Hframe.
  simpl app in Hframe.
  by rewrite !DeepFacts.get_path_step in Hframe
    by (apply PropertyFacts.container_kind; congruence).
Qed.

Lemma with_node_root_frame (target : value) (path : string) (node : value)
    (a : string) :
  kind_of target = Mapping → addresses_other a path →
  get (with_node target (path_parts path) node) a = get target a
  ∧ kind_of (with_node target (path_parts path) node) = Mapping.
Proof.
  intros Hk (b & Hb & Hne). unfold first_segment in Hb.
  destruct (path_parts path) as [|b' ps] eqn:Hparts; [done |].
  injection Hb as ->. split.
  - simpl. apply FrameFacts.get_with_child_other; [by rewrite Hk | done].
  - by rewrite DeepFacts.with_node_kind.
Qed.

Lemma set_pair_root_frame (target : value) (group k v : string)
    (target' : value) (a : string) :
  kind_of target = Mapping → addresses_other a group →
  set_pair target group k v = Ok target' →
  get target' a = get target a ∧ kind_of target' = Mapping.
Proof.
  intros Hk Hgroup. unfold set_pair. intros H.
  apply DeepFacts.bind_Ok in H as (target1 & H1 & H).
  assert (H1' : get target1 a = get target a ∧ kind_of target1 = Mapping).
  { destruct (isPlainObject (getDeep target group)).
    - by injection H1 as <-.
    - by eapply setDeep_root_frame. }
  destruct H1' as [Hget1 Hk1].
  destruct (isPlainObject (getDeep target1 group)).
  - apply DeepFacts.bind_Ok in H as (container' & _ & [= <-]).
    destruct (with_node_root_frame target1 group container' a Hk1 Hgroup)
      as [-> ->]. done.
  - by injection H as <-.
Qed.

Lemma keys_root_frame (valueMap : gmap string string)
    (keys : list ListEntry) (target target' : value) (a : string) :
  Forall (λ entry, addresses_other a (name entry)) keys →
  kind_of target = Mapping →
  for_each (apply_key valueMap) target keys = Ok target' →
  get target' a = get target a ∧ kind_of target' = Mapping.
Proof.
  intros Hkeys. revert target.
  induction Hkeys as [|entry keys Hentry _ IH]; intros target Hk.
  - by intros [= <-].
  - simpl. intros H. apply DeepFacts.bind_Ok in H as (target1 & H1 & H).
    rewrite apply_key_set_pair in H1.
    assert (H1' : get target1 a = get target a ∧ kind_of target1 = Mapping).
    { destruct (is_empty (trim (entry_value entry))).
      - by injection H1 as <-.
      - by eapply set_pair_root_frame. }
    destruct H1' as [Hget1 Hk1].
    destruct (IH target1 Hk1 H) as [-> ->]. done.
Qed.

Lemma parse_entry_root_frame (opts : ParseOptions) (st st' : state)
    (entry : string * raw_value) (a : string) :
  addresses_other a (entry_path entry.1) →
  kind_of st.1 = Mapping →
  Forall (λ e, addresses_other a (name e)) st.2 →
  parse_entry opts st entry = Ok st' →
  get st'.1 a = get st.1 a ∧ kind_of st'.1 = Mapping
  ∧ Forall (λ e, addresses_other a (name e)) st'.2.
Proof.
  destruct st as [out listEntries], entry as [rawName rawVal].
  cbn [fst snd]. unfold entry_path. intros Hentry Hk Hbuf.
  assert (Hwrite : ∀ v,
    JsString.eqb (type (parseFieldName rawName)) "list" = false →
    (out' ← setDeep out (key (parseFieldName rawName)) v;
     Ok (out', listEntries)) = Ok st' →
    get st'.1 a = get out a ∧ kind_of st'.1 = Mapping
    ∧ Forall (λ e, addresses_other a (name e)) st'.2).
  { intros v Hlist H. rewrite Hlist in Hentry.
    apply DeepFacts.bind_Ok in H as (out' & Hset & [= <-]).
    cbn [fst snd].
    destruct (setDeep_root_frame out _ v out' a Hk Hentry Hset). done. }
  destruct (JsString.eqb (type (parseFieldName rawName)) "list") eqn:Hlist.
  { unfold parse_entry. rewrite Hlist. intros H.
    apply DeepFacts.bind_Ok in H as ([entry|] & Hparse & [= <-]);
      cbn [fst snd]; [| done].
    split_and!; [done | done |].
    apply Forall_app. split; [done |]. apply Forall_cons. split; [| done].
    by rewrite (parseListEntry_name _ _ _ _ Hparse). }
  destruct (is_attachment rawVal) eqn:Hfile.
  { destruct rawVal as [| f |]; try done.
    unfold parse_entry. rewrite Hlist. by apply Hwrite. }
  rewrite parse_entry_assign
    by (done || by apply JsStringFacts.eqb_false).
  destruct (ignoreEmpty opts && _); [by intros [= <-] |].
  intros H. apply DeepFacts.bind_Ok in H as (parsed & _ & H).
  by eapply Hwrite.
Qed.

Lemma loop_root_frame (opts : ParseOptions)
    (entries : list (string * raw_value)) (st st' : state) (a : string) :
  Forall (λ entry, addresses_other a (entry_path entry.1)) entries →
  kind_of st.1 = Mapping →
  Forall (λ e, addresses_other a (name e)) st.2 →
  for_each (parse_entry opts) st entries = Ok st' →
  get st'.1 a = get st.1 a ∧ kind_of st'.1 = Mapping
  ∧ Forall (λ e, addresses_other a (name e)) st'.2.
Proof.
  intros Hentries. revert st.
  induction Hentries as [|entry entries Hentry _ IH]; intros st Hk Hbuf.
  - by intros [= <-].
  - simpl. intros H. apply DeepFacts.bind_Ok in H as (st1 & H1 & H).
    destruct (parse_entry_root_frame opts st st1 entry a Hentry Hk Hbuf H1)
      as (Hget1 & Hk1 & Hbuf1).
    destruct (IH st1 Hk1 Hbuf1 H) as (Hget' & Hk' & Hbuf').
    by rewrite Hget', Hget1.
Qed.

(** X16.  A cast raises only in strict mode, only for a declared type
    whose cast fails, and only the error that names the type and quotes
    the raw text.  A cast to [string], to [array] or to a type the parser
    does not know raises in no mode. *)
Theorem castValue_raises_only (type raw : string) (opts : ParseOptions)
    (sep : option string) (e : error) :
  castValue type raw opts sep = Throw e →
  strict opts = true ∧ cast_failure type raw ∧ e = cast_error type raw.
Proof. apply castValue_throws. Qed.

(** X17.  The turn of the main loop on an accepted list field writes
    nothing to the output: the entry goes to the end of the buffer of
    list entries, with the text of its raw value. *)
Theorem list_field_buffered (opts : ParseOptions) (out : value)
    (listEntries : list ListEntry) (head v : string) (names : list string)
    (idx : string) (rawVal : raw_value) :
  all_letters head = true → toLowerCase head = "list" →
  Forall (λ x, has_char ":" x = false) (v :: names ++ [idx]) →
  toLowerCase v = "key" ∨ toLowerCase v = "value" →
  join "::" names ≠ "" → idx ≠ "" →
  parse_entry opts (out, listEntries)
    (join "::" (head :: v :: names ++ [idx]), rawVal)
  = Ok (out, listEntries ++
         [ {| variant := if JsString.eqb (toLowerCase v) "key"
                         then KeyVariant else ValueVariant;
              name := join "::" names;
              index := idx;
              entry_value := to_String rawVal |} ]).
Proof.
  intros Hletters Hlist Hfree Hv Hname Hidx.
  assert (Hhead : head ≠ "") by (intros ->; done).
  unfold parse_entry.
  rewrite (JsStringFacts.join_cons "::" head (v :: names ++ [idx])) at 1
    by done.
  rewrite FieldNameFacts.typed_name by done.
  cbn [type]. rewrite Hlist. cbn [JsString.eqb String.eqb Ascii.eqb].
  change (String.eqb "list" "list") with true. cbv iota.
  rewrite ListNameFacts.accepted; [done | | done ..].
  apply Forall_cons. split; [| done].
  by apply FieldNameFacts.letters_without.
Qed.

(** X18.  Whatever the entries and the options, what the parser returns
    is a mapping. *)
Theorem parse_returns_mapping (entries : list (string * raw_value))
    (opts : ParseOptions) (out : value) :
  parseTypedFormData entries opts = Ok out → kind_of out = Mapping.
Proof.
  unfold parseTypedFormData. intros H.
  apply DeepFacts.bind_Ok in H as ([out1 listEntries] & Hloop & H).
  apply loop_mapping in Hloop; [| done]. simpl in Hloop.
  apply DeepFacts.bind_Ok in H as (out2 & Happly & H).
  destruct (applyListEntries_outcome listEntries out1 Hloop)
    as [(o & Ho & Hk) | [Ho _]]; [| congruence].
  assert (o = out2) as -> by congruence.
  destruct (ignoreEmpty opts); injection H as <-; [| done].
  by destruct out2.
Qed.

(** X19.  Strict mode only adds errors: when the parser returns in strict
    mode, it returns the same tree with the same options in lenient
    mode. *)
Theorem strict_result_is_lenient_result (entries : list (string * raw_value))
    (opts : ParseOptions) (out : value) :
  parseTypedFormData entries (with_strict true opts) = Ok out →
  parseTypedFormData entries (with_strict false opts) = Ok out.
Proof.
  unfold parseTypedFormData. intros H.
  apply DeepFacts.bind_Ok in H as (st & Hloop & H).
  by rewrite (loop_strict_ok _ _ _ _ Hloop).
Qed.

(** X20.  When every property access of the run is plain, what the parser
    raises is the error of one of its entries, in strict mode only: that
    of a rejected list field, or that of a failed cast of a field that is
    no list field. *)
Theorem parse_raises_only (entries : list (string * raw_value))
    (opts : ParseOptions) (e : error) :
  plain_run opts entries = true →
  parseTypedFormData entries opts = Throw e →
  ∃ entry, In entry entries ∧ own_error opts entry e.
Proof. apply plain_run_throws. Qed.

(** X21.  A field that is neither a list field nor an array field,
    submitted once or more with texts that all cast, holds the one cast
    value after one submission and the array of the cast values, in the
    order of submission, after two or more, provided the first cast value
    is neither an array nor undefined.  (No entry is skipped, the path has
    a segment, and every property access of the run is plain.) *)
Theorem repeated_field_collects (opts : ParseOptions) (rawName : string)
    (vals : list string) (casts : list value) :
  let field := parseFieldName rawName in
  type field ≠ "list" → type field ≠ "array" → ignoreEmpty opts = false →
  path_parts (key field) ≠ [] →
  plain_run opts (submissions rawName vals) = true →
  Forall2 (λ s c, castValue (type field) s opts (arraySeparator field) = Ok c)
    vals casts →
  (∀ c, head casts = Some c → isArray c = false ∧ is_undefined c = false) →
  vals ≠ [] →
  ∃ out, parseTypedFormData (submissions rawName vals) opts = Ok out
         ∧ getDeep out (key field)
           = match casts with [c] => c | _ => VArr casts ∅ end.
Proof.
  intros field Hlist Harr Hskip Hparts Hrun Hcasts Hfirst Hne.
  apply andb_true_iff in Hrun as [Hplain _].
  assert (Hfinish : ∀ out,
    (out ← applyListEntries [] out;
     if ignoreEmpty opts then Ok (clean out) else Ok out) = Ok out).
  { intros out. by rewrite Hskip. }
  unfold parseTypedFormData.
  destruct Hcasts as [|s1 c1 vals casts Hc1 Hcasts]; [done |].
  destruct (Hfirst c1 eq_refl) as [Ha1 Hu1].
  cbn [submissions map] in Hplain.
  assert (Hturn1 : plain_along (VObj ∅) (path_parts (key field)) = true).
  { apply andb_true_iff in Hplain as [Hturn _].
    by apply (plain_turn_field (VObj ∅) [] rawName (RawString s1)). }
  destruct (assign_step_plain opts (VObj ∅) [] rawName s1 c1 Hlist Hskip
              Hparts Hturn1 Hc1) as (out1 & Hstep1 & Hget1).
  destruct (LoopFacts.plain_loop_step _ _ _ _ _ _ Hplain Hstep1)
    as [_ Hplain1].
  fold field in Hget1. unfold getDeep at 2 in Hget1.
  rewrite DeepFacts.get_path_empty_mapping in Hget1 by done.
  simpl in Hget1.
  cbn [submissions map for_each]. rewrite Hstep1. cbn [mbind result_bind].
  destruct Hcasts as [|s2 c2 vals casts Hc2 Hcasts].
  { exists out1. simpl. by rewrite Hskip. }
  cbn [map] in Hplain1.
  assert (Hturn2 : plain_along out1 (path_parts (key field)) = true).
  { apply andb_true_iff in Hplain1 as [Hturn _].
    by apply (plain_turn_field out1 [] rawName (RawString s2)). }
  destruct (assign_step_plain opts out1 [] rawName s2 c2 Hlist Hskip
              Hparts Hturn2 Hc2) as (out2 & Hstep2 & Hget2).
  destruct (LoopFacts.plain_loop_step _ _ _ _ _ _ Hplain1 Hstep2)
    as [_ Hplain2].
  fold field in Hget2. rewrite Hget1 in Hget2.
  apply JsStringFacts.eqb_false in Harr as Harr'. rewrite Harr' in Hget2.
  assert (Hget2' : getDeep out2 (key field) = VArr [c1; c2] ∅).
  { rewrite Hget2. destruct c1; simpl in *; done. }
  destruct (collect_rest_plain opts rawName vals casts [c1; c2] out2 []
              Hlist Harr Hskip Hparts Hcasts Hplain2 Hget2')
    as (out' & Hloop & Hget').
  exists out'. cbn [map for_each]. rewrite Hstep2. cbn [mbind result_bind].
  unfold submissions in Hloop. rewrite Hloop. cbn [mbind result_bind].
  rewrite Hfinish. split; [done |].
  fold field in Hget'. rewrite Hget'. by destruct casts.
Qed.

(** X22.  An array field submitted once or more holds the elements of all
    its values, each value split at the separator of the field (its own,
    or the default one), in the order of submission.  (No entry is
    skipped, the path has a segment, and every property access of the run
    is plain.) *)
Theorem repeated_array_field_concatenates (opts : ParseOptions)
    (rawName : string) (vals : list string) :
  let field := parseFieldName rawName in
  let sep := default (defaultArraySeparator opts) (arraySeparator field) in
  type field = "array" → ignoreEmpty opts = false →
  path_parts (key field) ≠ [] →
  plain_run opts (submissions rawName vals) = true →
  vals ≠ [] →
  ∃ out, parseTypedFormData (submissions rawName vals) opts = Ok out
         ∧ getDeep out (key field)
           = VArr (map VStr (concat (map (λ s, splitArrayValue s sep) vals))) ∅.
Proof.
  intros field sep Harr Hskip Hparts Hrun Hne.
  apply andb_true_iff in Hrun as [Hplain _].
  destruct (collect_arrays_plain opts rawName vals [] (VObj ∅) []
              Harr Hskip Hparts Hplain)
    as (out & Hloop & Hget).
  { right. split; [| done]. unfold getDeep.
    by apply DeepFacts.get_path_empty_mapping. }
  exists out. unfold parseTypedFormData. rewrite Hloop.
  cbn [mbind result_bind]. simpl. rewrite Hskip.
  split; [done |]. by apply Hget.
Qed.

(** X23.  When every property access of the run is plain, the parser
    writes under the top-level names its entries address, and under no
    other: when the path of every entry (the key of a field, the group
    name of a list field) starts with a segment other than [a], and [a]
    is no member of [Object.prototype], the result holds nothing under
    [a]. *)
Theorem parse_writes_addressed_names_only
    (entries : list (string * raw_value)) (opts : ParseOptions) (out : value)
    (a : string) :
  plain_run opts entries = true → includes object_members a = false →
  Forall (λ entry, addresses_other a (entry_path entry.1)) entries →
  parseTypedFormData entries opts = Ok out →
  get out a = VUndef.
Proof.
  intros _ _ Hentries. unfold parseTypedFormData. intros H.
  apply DeepFacts.bind_Ok in H as ([out1 listEntries] & Hloop & H).
  destruct (loop_root_frame opts entries (VObj ∅, []) _ a Hentries eq_refl
              ltac:(by apply Forall_nil) Hloop) as (Hget1 & Hk1 & Hbuf1).
  cbn [fst snd] in *.
  apply DeepFacts.bind_Ok in H as (out2 & Happly & H).
  assert (H2 : get out2 a = get out1 a ∧ kind_of out2 = Mapping).
  { unfold applyListEntries in Happly.
    destruct (Nat.eqb (List.length listEntries) 0);
      [by injection Happly as <- |].
    eapply keys_root_frame; [| done | exact Happly].
    apply List.Forall_forall. intros e [He _]%List.filter_In.
    revert e He. by apply List.Forall_forall. }
  destruct H2 as [Hget2 Hk2].
  assert (Hundef : get out2 a = VUndef).
  { rewrite Hget2, Hget1. simpl. unfold lookup_own. by rewrite lookup_empty. }
  destruct (ignoreEmpty opts); injection H as <-; [| done].
  rewrite CleanFacts.get_clean by (by destruct out2).
  by rewrite Hundef.
Qed.

End Coverage.

Lemma castValue_raises_only_witness :
  strict Sample.strict_options = true
  ∧ cast_failure Sample.Date_parse Sample.JSON_parse "number" "abc"
  ∧ Error ("Invalid number: " +:+ quoted "abc") = cast_error "number" "abc".
Proof.
  apply (castValue_raises_only Sample.Date_parse Sample.JSON_parse
           "number" "abc" Sample.strict_options None).
  reflexivity.
Defined.

Lemma list_field_buffered_witness :
  parse_entry Sample.Date_parse Sample.JSON_parse DEFAULT_OPTIONS (VObj ∅, [])
    ("List::value::env::0", RawString "x")
  = Ok (VObj ∅, [ {| variant := ValueVariant; name := "env"; index := "0";
                     entry_value := "x" |} ]).
Proof.
  apply (list_field_buffered Sample.Date_parse Sample.JSON_parse
           DEFAULT_OPTIONS (VObj ∅) [] "List" "value" ["env"] "0"
           (RawString "x"));
    [reflexivity | reflexivity | | by right | done | done].
  repeat (apply List.Forall_cons; [reflexivity |]). apply List.Forall_nil.
Defined.

Lemma parse_returns_mapping_witness :
  Sample.parse [ ("user.name", RawString "n") ] DEFAULT_OPTIONS
  = Ok (VObj {[ "user" := VObj {[ "name" := VStr "n" ]} ]})
  ∧ kind_of (VObj {[ "user" := VObj {[ "name" := VStr "n" ]} ]}) = Mapping.
Proof.
  assert (Hparse :
    Sample.parse [ ("user.name", RawString "n") ] DEFAULT_OPTIONS
    = Ok (VObj {[ "user" := VObj {[ "name" := VStr "n" ]} ]}))
    by (by vm_compute).
  split; [exact Hparse |].
  exact (parse_returns_mapping Sample.Date_parse Sample.JSON_parse
           [ ("user.name", RawString "n") ] DEFAULT_OPTIONS _ Hparse).
Defined.

Lemma strict_result_is_lenient_result_witness :
  Sample.parse [ ("boolean::ok", RawString "Yes") ]
    (with_strict false DEFAULT_OPTIONS)
  = Ok (VObj {[ "ok" := VBool true ]}).
Proof.
  apply (strict_result_is_lenient_result Sample.Date_parse Sample.JSON_parse).
  by vm_compute.
Defined.

Lemma parse_raises_only_witness :
  plain_run Sample.Date_parse Sample.JSON_parse Sample.strict_options
    [ ("a", RawString "1"); ("boolean::ok", RawString "maybe") ] = true
  ∧ ∃ entry, In entry [ ("a", RawString "1");
                        ("boolean::ok", RawString "maybe") ]
             ∧ own_error Sample.Date_parse Sample.JSON_parse
                 Sample.strict_options entry
                 (Error ("Invalid boolean: " +:+ quoted "maybe")).
Proof.
  split; [reflexivity |].
  apply (parse_raises_only Sample.Date_parse Sample.JSON_parse
           [ ("a", RawString "1"); ("boolean::ok", RawString "maybe") ]
           Sample.strict_options); reflexivity.
Defined.

Lemma repeated_field_collects_witness :
  plain_run Sample.Date_parse Sample.JSON_parse DEFAULT_OPTIONS
    (submissions "boolean::user.flags" ["yes"; "off"; "1"]) = true
  ∧ ∃ out, Sample.parse (submissions "boolean::user.flags" ["yes"; "off"; "1"])
             DEFAULT_OPTIONS = Ok out
           ∧ getDeep out "user.flags"
             = VArr [VBool true; VBool false; VBool true] ∅.
Proof.
  split; [reflexivity |].
  apply (repeated_field_collects Sample.Date_parse Sample.JSON_parse
           DEFAULT_OPTIONS "boolean::user.flags" ["yes"; "off"; "1"]
           [VBool true; VBool false; VBool true]).
  - vm_compute. discriminate.
  - vm_compute. discriminate.
  - reflexivity.
  - vm_compute. discriminate.
  - reflexivity.
  - repeat (apply List.Forall2_cons; [reflexivity |]). apply List.Forall2_nil.
  - intros c [= <-]. by split.
  - discriminate.
Defined.

Lemma repeated_array_field_concatenates_witness :
  plain_run Sample.Date_parse Sample.JSON_parse DEFAULT_OPTIONS
    (submissions "array(|)::tags" ["a|b"; ""; " c "]) = true
  ∧ ∃ out, Sample.parse (submissions "array(|)::tags" ["a|b"; ""; " c "])
             DEFAULT_OPTIONS = Ok out
           ∧ getDeep out "tags" = VArr [VStr "a"; VStr "b"; VStr "c"] ∅.
Proof.
  split; [reflexivity |].
  apply (repeated_array_field_concatenates Sample.Date_parse Sample.JSON_parse
           DEFAULT_OPTIONS "array(|)::tags" ["a|b"; ""; " c "]).
  - reflexivity.
  - reflexivity.
  - vm_compute. discriminate.
  - reflexivity.
  - discriminate.
Defined.

Lemma parse_writes_addressed_names_only_witness :
  plain_run Sample.Date_parse Sample.JSON_parse DEFAULT_OPTIONS
    [ ("user.name", RawString "n"); ("list::key::env::0", RawString "K") ]
  = true
  ∧ get (VObj {[ "user" := VObj {[ "name" := VStr "n" ]};
                 "env" := VObj {[ "K" := VStr "" ]} ]}) "tags" = VUndef.
Proof.
  split; [reflexivity |].
  apply (parse_writes_addressed_names_only Sample.Date_parse Sample.JSON_parse
           [ ("user.name", RawString "n"); ("list::key::env::0", RawString "K") ]
           DEFAULT_OPTIONS).
  - reflexivity.
  - reflexivity.
  - apply List.Forall_cons; [exists "user"; by split |].
    apply List.Forall_cons; [exists "env"; by split |].
    apply List.Forall_nil.
  - by vm_compute.
Defined.
